(** * A shallow embedding of the load balancer's dispatch engine

    Source files: [load_balancer.py] (the [Server] dataclass and the
    [LoadBalancer] class) and [main.py] (the admin routes).

    Python [int] is [Z]; Python [float] is the kernel's binary64 [float];
    a Python [str] is the [string] of its code points, all below 256; a
    Python [dict] of headers is a [gmap string string]; a reference to a
    [Server] object is its position in the registry list [servers]. *)

From Stdlib Require Import ZArith Floats.PrimFloat.
From Stdlib Require Uint63.
From stdpp Require Import base gmap strings list pretty.

Local Open Scope Z_scope.

(** ** Data model *)

(** [class LoadBalancingAlgorithm(Enum)] *)
Inductive LoadBalancingAlgorithm : Type :=
  | ROUND_ROBIN
  | WEIGHTED_ROUND_ROBIN
  | LEAST_CONNECTIONS
  | RANDOM.

(** The [.value] of an enum member. *)
Definition algorithm_value (a : LoadBalancingAlgorithm) : string :=
  match a with
  | ROUND_ROBIN => "round_robin"
  | WEIGHTED_ROUND_ROBIN => "weighted_round_robin"
  | LEAST_CONNECTIONS => "least_connections"
  | RANDOM => "random"
  end.

(** The exceptions the modelled code can raise, each with its message. *)
Inductive exn : Type :=
  | ValueError (msg : string)
  | ZeroDivisionError
  | IndexError
  | RequestException (msg : string)
  | OtherException (msg : string).

(** A call either returns a value or raises. *)
Inductive result (A : Type) : Type :=
  | Return (a : A)
  | Raise (e : exn).
Arguments Return {A} a.
Arguments Raise {A} e.

(** The builtin [repr] on a [str]. A string stands for the [str] of its
    code points, all below 256. The quote is the single quote unless the
    text holds one and no double quote; the quote and the backslash are
    escaped with a backslash; tab, newline and carriage return are written
    [\t], [\n], [\r]; a code point that is not printable (the controls
    0-31 and 127-159, the no-break space 160 and the soft hyphen 173) is
    written [\x] and two lower-case hexadecimal digits; every other
    character stands for itself. *)
Definition backslash : Ascii.ascii := Ascii.ascii_of_N 92.
Definition single_quote : Ascii.ascii := Ascii.ascii_of_N 39.
Definition double_quote : Ascii.ascii := Ascii.ascii_of_N 34.

Definition hex_digit (n : N) : Ascii.ascii :=
  default (Ascii.ascii_of_N 48)
    (String.list_ascii_of_string "0123456789abcdef" !! N.to_nat n).

Definition repr_escape (c : Ascii.ascii) : string :=
  String backslash
    (String (Ascii.ascii_of_N 120)
       (String (hex_digit (Ascii.N_of_ascii c / 16)%N)
          (String (hex_digit (Ascii.N_of_ascii c mod 16)%N) EmptyString))).

Definition py_printable (n : N) : bool :=
  ((32 <=? n)%N && (n <? 127)%N) || ((161 <=? n)%N && negb (n =? 173)%N).

Definition repr_char (quote c : Ascii.ascii) : string :=
  let n := Ascii.N_of_ascii c in
  if Ascii.eqb c quote || Ascii.eqb c backslash
  then String backslash (String c EmptyString)
  else if (n =? 9)%N then String backslash "t"
  else if (n =? 10)%N then String backslash "n"
  else if (n =? 13)%N then String backslash "r"
  else if py_printable n then String c EmptyString
  else repr_escape c.

Fixpoint has_char (c : Ascii.ascii) (s : string) : bool :=
  match s with
  | EmptyString => false
  | String x r => Ascii.eqb x c || has_char c r
  end.

Definition repr_quote (s : string) : Ascii.ascii :=
  if has_char single_quote s && negb (has_char double_quote s)
  then double_quote else single_quote.

Fixpoint repr_body (quote : Ascii.ascii) (s : string) : string :=
  match s with
  | EmptyString => EmptyString
  | String c r => repr_char quote c +:+ repr_body quote r
  end.

Definition py_repr (s : string) : string :=
  String (repr_quote s)
    (repr_body (repr_quote s) s +:+ String (repr_quote s) EmptyString).

(** [LoadBalancingAlgorithm(value)]: lookup of an enum member by value;
    when no member has that value it raises
    [ValueError("%r is not a valid LoadBalancingAlgorithm" % value)]. *)
Definition LoadBalancingAlgorithm_of_value (v : string)
  : result LoadBalancingAlgorithm :=
  if String.eqb v "round_robin" then Return ROUND_ROBIN
  else if String.eqb v "weighted_round_robin" then Return WEIGHTED_ROUND_ROBIN
  else if String.eqb v "least_connections" then Return LEAST_CONNECTIONS
  else if String.eqb v "random" then Return RANDOM
  else Raise (ValueError (py_repr v +:+ " is not a valid LoadBalancingAlgorithm")).

(** [@dataclass class Server] *)
Record Server : Type := mkServer {
  name : string;
  host : string;
  port : Z;
  weight : Z;
  health_check_path : string;
  enabled : bool;
  healthy : bool;
  active_connections : Z;
  total_requests : Z;
  last_health_check : float;
  response_times : list float
}.

(** The constructor call of [_initialize_servers]: the live fields take
    their dataclass defaults and [__post_init__] turns the [None] history
    into a fresh empty list. *)
Definition new_server (n h : string) (p w : Z) (path : string) (en : bool)
  : Server :=
  mkServer n h p w path en true 0 0 0%float [].

(** Field assignments [server.f = v]. *)
Definition set_enabled (v : bool) (s : Server) : Server :=
  mkServer (name s) (host s) (port s) (weight s) (health_check_path s)
    v (healthy s) (active_connections s) (total_requests s)
    (last_health_check s) (response_times s).

Definition set_healthy (v : bool) (s : Server) : Server :=
  mkServer (name s) (host s) (port s) (weight s) (health_check_path s)
    (enabled s) v (active_connections s) (total_requests s)
    (last_health_check s) (response_times s).

Definition set_active_connections (v : Z) (s : Server) : Server :=
  mkServer (name s) (host s) (port s) (weight s) (health_check_path s)
    (enabled s) (healthy s) v (total_requests s)
    (last_health_check s) (response_times s).

Definition set_total_requests (v : Z) (s : Server) : Server :=
  mkServer (name s) (host s) (port s) (weight s) (health_check_path s)
    (enabled s) (healthy s) (active_connections s) v
    (last_health_check s) (response_times s).

Definition set_last_health_check (v : float) (s : Server) : Server :=
  mkServer (name s) (host s) (port s) (weight s) (health_check_path s)
    (enabled s) (healthy s) (active_connections s) (total_requests s)
    v (response_times s).

Definition set_response_times (v : list float) (s : Server) : Server :=
  mkServer (name s) (host s) (port s) (weight s) (health_check_path s)
    (enabled s) (healthy s) (active_connections s) (total_requests s)
    (last_health_check s) v.

(** [Server.url] and [Server.health_url] *)
Definition url (s : Server) : string :=
  "http://" +:+ host s +:+ ":" +:+ pretty (port s).

Definition health_url (s : Server) : string :=
  url s +:+ health_check_path s.

(** The fields of [LoadBalancer] that selection, forwarding and the admin
    operations read or write. The configuration dictionary, the
    health-check interval and the handle of the background thread are left
    out: no modelled operation depends on them. *)
Record LoadBalancer : Type := mkLoadBalancer {
  servers : list Server;
  current_index : Z;
  algorithm : LoadBalancingAlgorithm;
  timeout : Z
}.

Definition set_servers (v : list Server) (lb : LoadBalancer) : LoadBalancer :=
  mkLoadBalancer v (current_index lb) (algorithm lb) (timeout lb).

Definition set_current_index (v : Z) (lb : LoadBalancer) : LoadBalancer :=
  mkLoadBalancer (servers lb) v (algorithm lb) (timeout lb).

Definition set_algorithm (v : LoadBalancingAlgorithm) (lb : LoadBalancer)
  : LoadBalancer :=
  mkLoadBalancer (servers lb) (current_index lb) v (timeout lb).

(** A reference to a registry entry: the position of the [Server] object in
    [self.servers] together with the object's fields when the reference was
    taken. Writes through a reference go to that position of the registry
    ([update_server]), so every holder of the reference sees them. *)
Abbreviation server_ref := (nat * Server)%type.

Definition update_server (i : nat) (f : Server -> Server) (lb : LoadBalancer)
  : LoadBalancer :=
  set_servers (alter f i (servers lb)) lb.

(** ** Latency history *)

(** [response_times.append(t); if len(response_times) > 10:
    response_times.pop(0)] - the same three lines in
    [_check_server_health] and in [forward_request]. *)
Definition record_response_time (h : list float) (t : float) : list float :=
  let h' := h ++ [t] in
  if 10 <? Z.of_nat (length h') then tail h' else h'.

(** ** Connection accounting *)

(** [server.active_connections += 1; server.total_requests += 1] *)
Definition begin_request (s : Server) : Server :=
  let s1 := set_active_connections (active_connections s + 1) s in
  set_total_requests (total_requests s1 + 1) s1.

(** [server.active_connections = max(0, server.active_connections - 1)] *)
Definition end_request (s : Server) : Server :=
  set_active_connections (Z.max 0 (active_connections s - 1)) s.

(** One step of connection accounting on a backend. *)
Inductive conn_op : Type := Begin | End_.

Definition apply_op (s : Server) (o : conn_op) : Server :=
  match o with
  | Begin => begin_request s
  | End_ => end_request s
  end.

Definition run_ops (ops : list conn_op) (s : Server) : Server :=
  fold_left apply_op ops s.

(** Number of begins and of ends in a sequence. *)
Fixpoint count_begin (ops : list conn_op) : Z :=
  match ops with
  | [] => 0
  | Begin :: r => 1 + count_begin r
  | End_ :: r => count_begin r
  end.

Fixpoint count_end (ops : list conn_op) : Z :=
  match ops with
  | [] => 0
  | Begin :: r => count_end r
  | End_ :: r => 1 + count_end r
  end.

(** Every end is preceded by a begin of its own: no prefix has more ends
    than begins. [open] is the number of calls in flight: a begin starts
    one more, an end needs one to finish. [forward_request] only produces
    such sequences, since the only decrement is the [finally] of a call
    that has run its increment. *)
Fixpoint paired_from (open : Z) (ops : list conn_op) : bool :=
  match ops with
  | [] => true
  | Begin :: r => paired_from (open + 1) r
  | End_ :: r => (0 <? open) && paired_from (open - 1) r
  end.

Definition paired (ops : list conn_op) : bool := paired_from 0 ops.

(** ** Selection *)

(** [[server for server in self.servers if server.enabled and
    server.healthy]], as references into the registry. *)
Fixpoint healthy_from (i : nat) (l : list Server) : list server_ref :=
  match l with
  | [] => []
  | s :: r =>
      if enabled s && healthy s
      then (i, s) :: healthy_from (S i) r
      else healthy_from (S i) r
  end.

Definition get_healthy_servers (lb : LoadBalancer) : list server_ref :=
  healthy_from 0 (servers lb).

(** [pool[self.current_index % len(pool)]; self.current_index += 1]: the
    body shared by the two round-robin selections. The modulus raises
    [ZeroDivisionError] on an empty pool, before the cursor moves. *)
Definition pick_at_cursor (lb : LoadBalancer) (pool : list server_ref)
  : LoadBalancer * result server_ref :=
  if Z.of_nat (length pool) =? 0 then (lb, Raise ZeroDivisionError)
  else
    match pool !! Z.to_nat (current_index lb mod Z.of_nat (length pool)) with
    | Some s => (set_current_index (current_index lb + 1) lb, Return s)
    | None => (lb, Raise IndexError)
    end.

Definition _round_robin_selection (lb : LoadBalancer)
    (servers : list server_ref) : LoadBalancer * result server_ref :=
  pick_at_cursor lb servers.

(** [for server in servers: weighted_servers.extend([server] *
    server.weight)]; a list times a non-positive integer is empty. *)
Definition weighted_servers (servers : list server_ref) : list server_ref :=
  fold_left (fun acc server => acc ++ replicate (Z.to_nat (weight server.2)) server)
    servers [].

Definition _weighted_round_robin_selection (lb : LoadBalancer)
    (servers : list server_ref) : LoadBalancer * result server_ref :=
  pick_at_cursor lb (weighted_servers servers).

(** The loop of the builtin [min(iterable, key=...)]: a later item replaces
    the current best only when its key is strictly smaller. *)
Fixpoint min_loop {A : Type} (key : A -> Z) (best : A) (l : list A) : A :=
  match l with
  | [] => best
  | x :: r => min_loop key (if key x <? key best then x else best) r
  end.

Definition py_min {A : Type} (key : A -> Z) (l : list A) : result A :=
  match l with
  | [] => Raise (ValueError "min() arg is an empty sequence")
  | x :: r => Return (min_loop key x r)
  end.

Definition _least_connections_selection (servers : list server_ref)
  : result server_ref :=
  py_min (fun s => active_connections s.2) servers.

(** [random.choice(seq)] with the draw [rnd] supplied by the caller; the
    draw is reduced into range, as the generator only returns indices below
    [len(seq)]. *)
Definition random_choice (rnd : nat) (l : list server_ref)
  : result server_ref :=
  match l !! (rnd `mod` length l)%nat with
  | Some s => Return s
  | None => Raise IndexError
  end.

Definition option_result {A : Type} (r : result A) : result (option A) :=
  match r with
  | Return a => Return (Some a)
  | Raise e => Raise e
  end.

(** [LoadBalancer.select_server]. The final [else] of the source is not
    reachable, [self.algorithm] being a member of the enumeration. *)
Definition select_server (lb : LoadBalancer) (rnd : nat)
  : LoadBalancer * result (option server_ref) :=
  let healthy_servers := get_healthy_servers lb in
  match healthy_servers with
  | [] => (lb, Return None)
  | [s] => (lb, Return (Some s))
  | _ =>
      match algorithm lb with
      | ROUND_ROBIN =>
          let '(lb', r) := _round_robin_selection lb healthy_servers in
          (lb', option_result r)
      | WEIGHTED_ROUND_ROBIN =>
          let '(lb', r) := _weighted_round_robin_selection lb healthy_servers in
          (lb', option_result r)
      | LEAST_CONNECTIONS =>
          (lb, option_result (_least_connections_selection healthy_servers))
      | RANDOM => (lb, option_result (random_choice rnd healthy_servers))
      end
  end.

(** Consecutive calls of [select_server], one per random draw of [rnds],
    with nothing else touching the balancer in between. *)
Fixpoint select_many (rnds : list nat) (lb : LoadBalancer)
  : LoadBalancer * list (result (option server_ref)) :=
  match rnds with
  | [] => (lb, [])
  | r :: rest =>
      let '(lb1, x) := select_server lb r in
      let '(lb2, xs) := select_many rest lb1 in
      (lb2, x :: xs)
  end.

(** The conceptual sequence of the specification: each backend appears
    [weight] consecutive times, in registry order. *)
Fixpoint conceptual_sequence (servers : list server_ref) : list server_ref :=
  match servers with
  | [] => []
  | s :: r => replicate (Z.to_nat (weight s.2)) s ++ conceptual_sequence r
  end.

(** ** Forwarding *)

(** What [requests.request] is called with. *)
Record Request : Type := mkRequest {
  req_method : string;
  req_url : string;
  req_headers : gmap string string;
  req_data : option (list Byte.byte);
  req_timeout : Z;
  req_allow_redirects : bool
}.

(** The part of a [requests.Response] that the forwarder reads. *)
Record Response : Type := mkResponse {
  status_code : Z;
  text : string
}.

Definition hop_by_hop_headers : list string :=
  [ "connection"; "keep-alive"; "proxy-authenticate";
    "proxy-authorization"; "te"; "trailers"; "transfer-encoding"; "upgrade" ].

(** [request_headers = dict(headers); for header in hop_by_hop_headers:
    request_headers.pop(header, None)] *)
Definition strip_hop_by_hop (headers : gmap string string)
  : gmap string string :=
  fold_left (fun request_headers header => delete header request_headers)
    hop_by_hop_headers headers.

(** The request that [forward_request] prepares for the selected server. *)
Definition outbound_request (server : Server) (tmo : Z) (method path : string)
    (headers : gmap string string) (data : option (list Byte.byte)) : Request :=
  mkRequest method (url server +:+ path) (strip_hop_by_hop headers) data tmo
    false.

(** The network as seen by one call: for the request sent, either the
    response together with the measured [time.time() - start_time], or the
    exception that [requests.request] raised. *)
Definition network : Type := Request -> result (Response * float).

Definition track_response_time (t : float) (s : Server) : Server :=
  set_response_times (record_response_time (response_times s) t) s.

(** [LoadBalancer.forward_request]. The [finally] clause runs on the three
    ways out of the [try] block: the [return] of the body, the [return] of
    the [except requests.RequestException] handler, and an exception that
    no handler catches, which is raised again after it. *)
Definition forward_request (lb : LoadBalancer) (method path : string)
    (headers : gmap string string) (data : option (list Byte.byte))
    (rnd : nat) (send : network)
  : LoadBalancer * result (option Response * Z * string) :=
  match select_server lb rnd with
  | (lb1, Raise e) => (lb1, Raise e)
  | (lb1, Return None) =>
      (lb1, Return (None, 503, "No healthy servers available"))
  | (lb1, Return (Some (i, server))) =>
      let lb2 := update_server i begin_request lb1 in
      let '(lb3, r) :=
        match send (outbound_request server (timeout lb1) method path headers data) with
        | Return (response, response_time) =>
            (update_server i (track_response_time response_time) lb2,
             Return (Some response, status_code response, text response))
        | Raise (RequestException msg) =>
            (lb2, Return (None, 502, "Bad Gateway: " +:+ msg))
        | Raise e => (lb2, Raise e)
        end in
      (update_server i end_request lb3, r)
  end.

(** ** Health probe *)

(** [LoadBalancer._check_server_health]. [probe] is what
    [requests.get(server.health_url, timeout=5)] did: the status code
    with the measured [time.time() - start_time], or the exception raised;
    [now] is the reading of [time.time()] stored as the time of the probe.
    An exception other than [requests.RequestException] leaves the
    function before any field is written. *)
Definition _check_server_health (server : Server)
    (probe : result (Z * float)) (now : float) : result Server :=
  match probe with
  | Return (status, response_time) =>
      let s1 := set_healthy (status =? 200) server in
      let s2 := set_last_health_check now s1 in
      Return (track_response_time response_time s2)
  | Raise (RequestException _) =>
      let s1 := set_healthy false server in
      Return (set_last_health_check now s1)
  | Raise e => Raise e
  end.

(** ** Administration *)

(** [LoadBalancer.update_algorithm]: the enum lookup raises [ValueError]
    before either field is assigned, and the handler only logs. *)
Definition update_algorithm (lb : LoadBalancer) (algorithm : string)
  : LoadBalancer :=
  match LoadBalancingAlgorithm_of_value algorithm with
  | Return a => set_current_index 0 (set_algorithm a lb)
  | Raise _ => lb
  end.

(** [LoadBalancer.toggle_server]: the first server of that name. *)
Fixpoint toggle_in (l : list Server) (server_name : string) (en : bool)
  : list Server * bool :=
  match l with
  | [] => ([], false)
  | s :: r =>
      if String.eqb (name s) server_name then (set_enabled en s :: r, true)
      else let '(r', found) := toggle_in r server_name en in (s :: r', found)
  end.

Definition toggle_server (lb : LoadBalancer) (server_name : string)
    (en : bool) : LoadBalancer * bool :=
  let '(l, found) := toggle_in (servers lb) server_name en in
  (set_servers l lb, found).

(** A reply of an admin route: [jsonify({key: value}), status], the status
    being 200 where the route gives none. *)
Record Reply : Type := mkReply {
  reply_status : Z;
  reply_key : string;
  reply_value : string
}.

(** [change_algorithm] of [main.py], route [/admin/algorithm/<algorithm>]. *)
Definition change_algorithm (lb : LoadBalancer) (algorithm : string)
  : LoadBalancer * Reply :=
  (update_algorithm lb algorithm,
   mkReply 200 "message" ("Algorithm changed to " +:+ algorithm)).

(** [manage_server] of [main.py], route
    [/admin/server/<server_name>/<action>]. *)
Definition manage_server (lb : LoadBalancer) (server_name action : string)
  : LoadBalancer * Reply :=
  let toggled :=
    if String.eqb action "enable" then Some (toggle_server lb server_name true)
    else if String.eqb action "disable"
         then Some (toggle_server lb server_name false)
         else None in
  match toggled with
  | None => (lb, mkReply 400 "error" "Invalid action")
  | Some (lb', true) =>
      (lb', mkReply 200 "message"
              ("Server " +:+ server_name +:+ " " +:+ action +:+ "d"))
  | Some (lb', false) => (lb', mkReply 404 "error" "Server not found")
  end.

(** ** Notions used to state the properties *)

(** The list that the current algorithm indexes with the cursor. *)
Definition selection_pool (lb : LoadBalancer) : list server_ref :=
  match algorithm lb with
  | ROUND_ROBIN => get_healthy_servers lb
  | WEIGHTED_ROUND_ROBIN => weighted_servers (get_healthy_servers lb)
  | _ => []
  end.

Definition pool_at (pool : list server_ref) (c : Z)
  : result (option server_ref) :=
  Return (pool !! Z.to_nat (c mod Z.of_nat (length pool))).

(** The history after recording the durations [ts], oldest first, on top of
    the history [h]. *)
Definition record_all (h ts : list float) : list float :=
  fold_left record_response_time ts h.

(** The registry position of the backend that a selection returned. *)
Definition picked_position (r : result (option server_ref)) : option nat :=
  match r with
  | Return (Some x) => Some x.1
  | _ => None
  end.

(** ** Sample registries used by the closed examples *)

Definition srvA : Server := new_server "A" "127.0.0.1" 8001 3 "/health" true.
Definition srvB : Server := new_server "B" "127.0.0.1" 8002 1 "/health" true.
Definition srvC : Server := new_server "C" "127.0.0.1" 8003 1 "/health" true.

Definition lb_of (l : list Server) (a : LoadBalancingAlgorithm)
  : LoadBalancer :=
  mkLoadBalancer l 0 a 30.

(** No network: every request is refused. *)
Definition refused : network :=
  fun _ => Raise (RequestException "connection refused").

(** A registry of six eligible backends in which positions 2 and 5 share
    the minimum count. *)
Definition tie_registry : list Server :=
  [ set_active_connections 4 srvA; set_active_connections 3 srvB;
    set_active_connections 1 srvC; set_active_connections 2 srvA;
    set_active_connections 5 srvB; set_active_connections 1 srvC ].

(** Eleven durations, oldest first. *)
Definition eleven : list float :=
  [1; 2; 3; 4; 5; 6; 7; 8; 9; 10; 11]%float.

(** A network that refuses every request and reports the [Connection]
    header it was sent in its error message. *)
Definition refuse_and_report : network :=
  fun req =>
    Raise (RequestException (default "absent" (req_headers req !! "Connection"))).

(** ** Start-up *)

(** One entry of [config['servers']]: the three keys read with
    [server_config[...]] and the three read with [server_config.get]. *)
Record ServerConfig : Type := mkServerConfig {
  cfg_name : string;
  cfg_host : string;
  cfg_port : Z;
  cfg_weight : option Z;
  cfg_health_check_path : option string;
  cfg_enabled : option bool
}.

(** The [Server(...)] call of [_initialize_servers], with the defaults of
    the three [.get] lookups. *)
Definition server_of_config (c : ServerConfig) : Server :=
  new_server (cfg_name c) (cfg_host c) (cfg_port c)
    (default 1 (cfg_weight c))
    (default "/health" (cfg_health_check_path c))
    (default true (cfg_enabled c)).

(** [LoadBalancer._initialize_servers]: one [self.servers.append] per
    entry, in the order of the configuration. *)
Definition _initialize_servers (cfg : list ServerConfig)
    (servers : list Server) : list Server :=
  fold_left (fun acc c => acc ++ [server_of_config c]) cfg servers.

(** [LoadBalancer.__init__] on a configuration already loaded: the
    algorithm name, the forwarding timeout and the server entries. The
    enum lookup comes before the servers are built and its [ValueError]
    is not caught. Starting the background thread is not modelled. *)
Definition LoadBalancer_init (algorithm : string) (tmo : Z)
    (cfg : list ServerConfig) : result LoadBalancer :=
  match LoadBalancingAlgorithm_of_value algorithm with
  | Return a => Return (mkLoadBalancer (_initialize_servers cfg []) 0 a tmo)
  | Raise e => Raise e
  end.

(** ** One cycle of the health-check loop *)

(** The [for server in self.servers] loop of [_health_check_loop], from
    position [i] on: [probe j] and [now j] are what the network and the
    clock give for the server at position [j]. An exception that
    [_check_server_health] lets through ends the loop where it is, the
    servers already probed keeping their new state. *)
Fixpoint health_check_from (i : nat) (probe : nat -> result (Z * float))
    (now : nat -> float) (l : list Server) : list Server * option exn :=
  match l with
  | [] => ([], None)
  | s :: r =>
      if enabled s then
        match _check_server_health s (probe i) (now i) with
        | Return s' =>
            let '(r', e) := health_check_from (S i) probe now r in
            (s' :: r', e)
        | Raise e => (s :: r, Some e)
        end
      else
        let '(r', e) := health_check_from (S i) probe now r in
        (s :: r', e)
  end.

Definition health_check_cycle (lb : LoadBalancer)
    (probe : nat -> result (Z * float)) (now : nat -> float)
  : LoadBalancer * option exn :=
  let '(l, e) := health_check_from 0 probe now (servers lb) in
  (set_servers l lb, e).

(** ** Statistics *)

(** One entry of [stats['servers']]. *)
Record ServerStats : Type := mkServerStats {
  st_name : string;
  st_url : string;
  st_enabled : bool;
  st_healthy : bool;
  st_weight : Z;
  st_active_connections : Z;
  st_total_requests : Z;
  st_avg_response_time : float;
  st_last_health_check : float
}.

(** The dictionary returned by [get_server_stats]. *)
Record Stats : Type := mkStats {
  stats_algorithm : string;
  total_servers : Z;
  healthy_servers : Z;
  stats_servers : list ServerStats
}.

Section Statistics.

(** The builtin [sum] on a list of floats. Its rounding differs between
    versions of the interpreter, and nothing below depends on it. *)
Variable py_sum : list float -> float.

(** [len(...)] as the float the division converts it to. *)
Definition float_of_len (n : nat) : float :=
  of_uint63 (Uint63.of_Z (Z.of_nat n)).

(** [Server.avg_response_time] *)
Definition avg_response_time (s : Server) : float :=
  match response_times s with
  | [] => 0%float
  | _ => PrimFloat.div (py_sum (response_times s))
           (float_of_len (length (response_times s)))
  end.

Definition server_stats (s : Server) : ServerStats :=
  mkServerStats (name s) (url s) (enabled s) (healthy s) (weight s)
    (active_connections s) (total_requests s) (avg_response_time s)
    (last_health_check s).

(** [LoadBalancer.get_server_stats] *)
Definition get_server_stats (lb : LoadBalancer) : Stats :=
  mkStats (algorithm_value (algorithm lb))
    (Z.of_nat (length (servers lb)))
    (Z.of_nat (length (get_healthy_servers lb)))
    (fold_left (fun acc s => acc ++ [server_stats s]) (servers lb) []).

End Statistics.

(** ** Runs of the balancer *)

(** One operation on the balancer, run to its end before the next one
    starts: a forwarded request, a cycle of the health-check loop, or one
    of the two administrative calls. *)
Inductive step : LoadBalancer -> LoadBalancer -> Prop :=
  | step_forward lb method path headers data rnd (send : network) :
      step lb (forward_request lb method path headers data rnd send).1
  | step_health lb probe now :
      step lb (health_check_cycle lb probe now).1
  | step_algorithm lb v :
      step lb (update_algorithm lb v)
  | step_toggle lb server_name en :
      step lb (toggle_server lb server_name en).1.

(** The operations other than enabling the servers named [kept]: any
    forwarded request, health-check cycle or algorithm change, and any
    [toggle_server] call that disables or that names another server. *)
Inductive step_without_enabling (kept : string)
  : LoadBalancer -> LoadBalancer -> Prop :=
  | swe_forward lb method path headers data rnd (send : network) :
      step_without_enabling kept lb
        (forward_request lb method path headers data rnd send).1
  | swe_health lb probe now :
      step_without_enabling kept lb (health_check_cycle lb probe now).1
  | swe_algorithm lb v :
      step_without_enabling kept lb (update_algorithm lb v)
  | swe_toggle lb server_name en :
      server_name ≠ kept ∨ en = false →
      step_without_enabling kept lb (toggle_server lb server_name en).1.

(** Every server of that name is disabled. *)
Definition disabled_by_name (kept : string) (l : list Server) : Prop :=
  Forall (fun s => name s = kept -> enabled s = false) l.

(** What every state of a run satisfies (see [reachable_invariant]). *)
Definition server_idle (s : Server) : Prop :=
  active_connections s = 0 ∧ 0 ≤ total_requests s ∧
  (length (response_times s) ≤ 10)%nat.

(** The fields of a server that no operation writes. *)
Definition static_fields (s : Server) : string * string * Z * Z * string :=
  (name s, host s, port s, weight s, health_check_path s).

(** The flags and fields that forwarding never writes. *)
Definition unforwarded_fields (s : Server)
  : string * string * Z * Z * string * bool * bool * float :=
  (name s, host s, port s, weight s, health_check_path s,
   enabled s, healthy s, last_health_check s).

(** A probe outcome that [_check_server_health] deals with itself: a
    response, or a [requests.RequestException]. *)
Definition handled (r : result (Z * float)) : Prop :=
  match r with
  | Return _ => True
  | Raise (RequestException _) => True
  | Raise _ => False
  end.

(** The server at position [i] after its turn in a cycle: probed when it
    is enabled, left alone otherwise. *)
Definition probed (probe : nat -> result (Z * float)) (now : nat -> float)
    (i : nat) (s : Server) : Server :=
  if enabled s then
    match _check_server_health s (probe i) (now i) with
    | Return s' => s'
    | Raise _ => s
    end
  else s.

(** What holds between operations in every run from a configuration. *)
Definition run_invariant (cfg : list ServerConfig) (tmo : Z)
    (lb : LoadBalancer) : Prop :=
  Forall server_idle (servers lb) ∧
  0 ≤ current_index lb ∧
  static_fields <$> servers lb = static_fields <$> (server_of_config <$> cfg) ∧
  timeout lb = tmo.

(** A configuration of three servers, the second one disabled. *)
Definition sample_config : list ServerConfig :=
  [ mkServerConfig "A" "127.0.0.1" 8001 (Some 3) None None;
    mkServerConfig "B" "127.0.0.1" 8002 None (Some "/ping") (Some false);
    mkServerConfig "C" "127.0.0.1" 8003 None None (Some true) ].

(** Probes answered 200 at even positions and 503 at odd ones. *)
Definition alternating_probe : nat -> result (Z * float) :=
  fun i => Return (if Nat.even i then 200 else 503, 0.25%float).

(** * Properties *)

(** ** Connection accounting *)

Lemma begin_request_active s :
  active_connections (begin_request s) = active_connections s + 1.
Proof. reflexivity. Qed.

Lemma begin_request_total s :
  total_requests (begin_request s) = total_requests s + 1.
Proof. reflexivity. Qed.

Lemma end_request_active s :
  active_connections (end_request s) = Z.max 0 (active_connections s - 1).
Proof. reflexivity. Qed.

Lemma apply_op_nonneg s o :
  0 ≤ active_connections s → 0 ≤ active_connections (apply_op s o).
Proof.
  destruct o; cbn [apply_op];
    [rewrite begin_request_active | rewrite end_request_active]; lia.
Qed.

Lemma run_ops_nonneg ops : ∀ s,
  0 ≤ active_connections s → 0 ≤ active_connections (run_ops ops s).
Proof.
  induction ops as [|o ops IH]; intros s Hs; [done|].
  apply (IH (apply_op s o)), apply_op_nonneg, Hs.
Qed.

Lemma run_ops_cons o ops s : run_ops (o :: ops) s = run_ops ops (apply_op s o).
Proof. reflexivity. Qed.

Lemma run_ops_paired ops : ∀ s,
  paired_from (active_connections s) ops = true →
  active_connections (run_ops ops s)
  = active_connections s + count_begin ops - count_end ops.
Proof.
  induction ops as [|[|] ops IH]; intros s Hp;
    cbn [paired_from count_begin count_end] in *.
  - unfold run_ops; simpl. lia.
  - rewrite run_ops_cons. cbn [apply_op].
    rewrite IH; rewrite begin_request_active; [lia | done].
  - apply andb_prop in Hp as [Hpos Hp]. apply Z.ltb_lt in Hpos.
    assert (Hac : active_connections (end_request s) = active_connections s - 1)
      by (rewrite end_request_active; lia).
    rewrite run_ops_cons. cbn [apply_op].
    rewrite IH; rewrite Hac; [lia | done].
Qed.

Lemma paired_from_counts ops : ∀ n,
  0 ≤ n → paired_from n ops = true → count_end ops ≤ n + count_begin ops.
Proof.
  induction ops as [|[|] ops IH]; intros n Hn Hp;
    cbn [paired_from count_begin count_end] in *.
  - lia.
  - specialize (IH (n + 1) ltac:(lia) Hp). lia.
  - apply andb_prop in Hp as [Hpos Hp]. apply Z.ltb_lt in Hpos.
    specialize (IH (n - 1) ltac:(lia) Hp). lia.
Qed.

(** ** References into the registry *)

Lemma healthy_from_lookup l : ∀ k i s,
  (i, s) ∈ healthy_from k l → (k ≤ i)%nat ∧ l !! (i - k)%nat = Some s.
Proof.
  induction l as [|x l IH]; intros k i s Hin; simpl in Hin.
  - by apply elem_of_nil in Hin.
  - assert (Hrest : (i, s) ∈ healthy_from (S k) l →
                    (k ≤ i)%nat ∧ (x :: l) !! (i - k)%nat = Some s).
    { intros H. apply IH in H as [Hle Hl]. split; [lia|].
      replace (i - k)%nat with (S (i - S k)) by lia. done. }
    destruct (enabled x && healthy x); [|auto].
    apply elem_of_cons in Hin as [Heq|Hin]; [|auto].
    inversion Heq; subst. split; [lia|]. by rewrite Nat.sub_diag.
Qed.

Lemma get_healthy_servers_lookup lb i s :
  (i, s) ∈ get_healthy_servers lb → servers lb !! i = Some s.
Proof.
  intros H. apply healthy_from_lookup in H as [_ H].
  by rewrite Nat.sub_0_r in H.
Qed.

Lemma weighted_servers_acc l : ∀ acc,
  fold_left (fun acc server => acc ++ replicate (Z.to_nat (weight server.2)) server)
    l acc = acc ++ conceptual_sequence l.
Proof.
  induction l as [|s l IH]; intros acc; simpl.
  - by rewrite app_nil_r.
  - by rewrite IH, <- app_assoc.
Qed.

(** The list built by the loop of [_weighted_round_robin_selection] is the
    conceptual sequence of the specification. *)
Lemma weighted_servers_conceptual l :
  weighted_servers l = conceptual_sequence l.
Proof. unfold weighted_servers. by rewrite weighted_servers_acc. Qed.

Lemma conceptual_sequence_elem l x :
  x ∈ conceptual_sequence l → x ∈ l.
Proof.
  induction l as [|s l IH]; simpl; intros H; [done|].
  apply elem_of_app in H as [H|H].
  - apply elem_of_replicate in H as [-> _]. apply list_elem_of_here.
  - apply list_elem_of_further, IH, H.
Qed.

Lemma pick_at_cursor_inv lb pool lb' x :
  pick_at_cursor lb pool = (lb', Return x) →
  lb' = set_current_index (current_index lb + 1) lb ∧
  pool !! Z.to_nat (current_index lb mod Z.of_nat (length pool)) = Some x.
Proof.
  unfold pick_at_cursor. destruct (Z.of_nat (length pool) =? 0); [done|].
  destruct (pool !! _) as [s|] eqn:E; [|done].
  intros [= <- <-]. done.
Qed.

Lemma min_loop_elem {A} (key : A → Z) l : ∀ best,
  min_loop key best l ∈ best :: l.
Proof.
  induction l as [|x l IH]; intros best; simpl.
  - apply list_elem_of_here.
  - specialize (IH (if key x <? key best then x else best)).
    apply elem_of_cons in IH as [->|IH].
    + destruct (key x <? key best); set_solver.
    + set_solver.
Qed.

Lemma option_result_inv {A} (r : result A) x :
  option_result r = Return (Some x) → r = Return x.
Proof. destruct r; simpl; congruence. Qed.

(** A selection returns a reference to an eligible backend and leaves the
    registry itself as it was. *)
Lemma select_server_sound lb rnd lb1 x :
  select_server lb rnd = (lb1, Return (Some x)) →
  x ∈ get_healthy_servers lb ∧ servers lb1 = servers lb.
Proof.
  unfold select_server.
  destruct (get_healthy_servers lb) as [|a [|b l]] eqn:E.
  - done.
  - intros [= <- <-]. split; [apply list_elem_of_here | done].
  - destruct (algorithm lb).
    + unfold _round_robin_selection.
      destruct (pick_at_cursor _ _) as [lb' r] eqn:P. intros [= <- Hr].
      apply option_result_inv in Hr as ->.
      apply pick_at_cursor_inv in P as [-> P]. split; [|done].
      eapply list_elem_of_lookup_2, P.
    + unfold _weighted_round_robin_selection.
      destruct (pick_at_cursor _ _) as [lb' r] eqn:P. intros [= <- Hr].
      apply option_result_inv in Hr as ->.
      apply pick_at_cursor_inv in P as [-> P]. split; [|done].
      apply conceptual_sequence_elem. rewrite <- weighted_servers_conceptual.
      eapply list_elem_of_lookup_2, P.
    + intros [= <- <-]. split; [|done].
      apply (min_loop_elem (λ s : server_ref, active_connections s.2) (b :: l) a).
    + unfold random_choice. destruct (_ !! _) as [s|] eqn:L; [|done].
      intros [= <- <-]. split; [|done]. eapply list_elem_of_lookup_2, L.
Qed.

Lemma servers_update_server i f lb :
  servers (update_server i f lb) = alter f i (servers lb).
Proof. reflexivity. Qed.

(** The registry after a call of [forward_request] that selected the
    backend at position [i]: the entry went through [begin_request], then
    possibly the latency record of the success path, then [end_request]. *)
Lemma forward_request_registry lb method path headers data rnd send lb1 i server :
  select_server lb rnd = (lb1, Return (Some (i, server))) →
  ∃ g : Server → Server,
    (∀ s, active_connections (g s) = active_connections s ∧
          total_requests (g s) = total_requests s) ∧
    servers (forward_request lb method path headers data rnd send).1
    = alter end_request i (alter g i (alter begin_request i (servers lb))).
Proof.
  intros Hsel. pose proof (select_server_sound _ _ _ _ Hsel) as [_ Hsrv].
  unfold forward_request. rewrite Hsel.
  destruct (send _) as [[response response_time]|e].
  - exists (track_response_time response_time).
    split; [intros s; split; reflexivity|].
    simpl. by rewrite Hsrv.
  - exists id. split; [intros s; split; reflexivity|].
    assert (Hid : ∀ l : list Server, alter id i l = l)
      by (intros l; by apply list_alter_id).
    rewrite Hid. destruct e; simpl; by rewrite Hsrv.
Qed.

(** C1. The sequences of begins and ends on one backend are those that
    calls of [forward_request] produce: a begin is the first step of a
    call, an end is the [finally] of a call that has begun, so no prefix
    has more ends than begins ([paired]); the count of a new backend is 0.
    For every such sequence the count is non-negative after every prefix
    and ends at the number of begins minus the number of ends clamped at
    0, the clamp never taking effect; and a call of [forward_request]
    that selects a backend leaves that backend with one more total request
    and with its count incremented once and decremented once, clamped at
    0, whatever the network did (response, transport failure or any other
    exception), and leaves the other backends alone. *)
Theorem C1_connection_accounting :
  (∀ (ops : list conn_op) (s : Server),
     active_connections s = 0 →
     (∀ pre suf, ops = pre ++ suf → 0 ≤ active_connections (run_ops pre s)) ∧
     (paired ops = true →
      active_connections (run_ops ops s) = count_begin ops - count_end ops ∧
      active_connections (run_ops ops s)
      = Z.max 0 (count_begin ops - count_end ops))) ∧
  (∀ lb method path headers data rnd (send : network) lb1 i server,
     select_server lb rnd = (lb1, Return (Some (i, server))) →
     let lb' := (forward_request lb method path headers data rnd send).1 in
     (∃ mid, servers lb' !! i = Some (end_request mid) ∧
             active_connections mid = active_connections server + 1 ∧
             total_requests (end_request mid) = total_requests server + 1 ∧
             active_connections (end_request mid)
             = Z.max 0 (active_connections server + 1 - 1)) ∧
     (∀ j, j ≠ i → servers lb' !! j = servers lb !! j)).
Proof.
  split.
  - intros ops s H0. split.
    + intros pre suf _. apply run_ops_nonneg. lia.
    + intros Hp. unfold paired in Hp.
      pose proof (paired_from_counts ops 0 ltac:(lia) Hp) as Hle.
      rewrite <- H0 in Hp. apply run_ops_paired in Hp. rewrite Hp, H0. lia.
  - intros lb method path headers data rnd send lb1 i server Hsel lb'.
    pose proof (select_server_sound _ _ _ _ Hsel) as [Hin _].
    apply get_healthy_servers_lookup in Hin.
    destruct (forward_request_registry lb method path headers data rnd send
                lb1 i server Hsel) as (g & Hg & Hsrv).
    subst lb'. rewrite Hsrv. split.
    + exists (g (begin_request server)).
      rewrite !list_lookup_alter_eq, Hin. simpl.
      destruct (Hg (begin_request server)) as [Ha Ht].
      split; [done|]. split; [by rewrite Ha|]. split.
      * by rewrite Ht.
      * by rewrite Ha, begin_request_active.
    + intros j Hj. by rewrite !list_lookup_alter_ne.
Qed.

Lemma C1_witness :
  (active_connections srvA = 0 ∧ paired [Begin; Begin; End_] = true ∧
   active_connections (run_ops [Begin; Begin; End_] srvA) = 1) ∧
  (∃ mid,
     servers (forward_request (lb_of [srvA; srvB] ROUND_ROBIN) "GET" "/" ∅
                None 0%nat refused).1 !! 0%nat = Some (end_request mid) ∧
     active_connections (end_request mid) = 0).
Proof.
  destruct C1_connection_accounting as [Hseq Hfwd]. split.
  - destruct (Hseq [Begin; Begin; End_] srvA eq_refl) as [_ Hp].
    split; [reflexivity|]. split; [reflexivity|].
    destruct (Hp eq_refl) as [-> _]. reflexivity.
  - destruct (Hfwd (lb_of [srvA; srvB] ROUND_ROBIN) "GET" "/" ∅ None 0%nat
                refused _ 0%nat srvA eq_refl) as [(mid & Hl & _ & _ & Ha) _].
    exists mid. split; [exact Hl | exact Ha].
Defined.

(** ** The cursor-driven selections *)

Lemma cursor_in_range {A} (pool : list A) (c : Z) :
  pool ≠ [] →
  (Z.to_nat (c mod Z.of_nat (length pool)) < length pool)%nat.
Proof.
  intros Hne. destruct pool as [|a pool]; [done|].
  pose proof (Z.mod_pos_bound c (Z.of_nat (length (a :: pool)))) as Hb.
  simpl length in *. lia.
Qed.

Lemma pick_at_cursor_nonempty lb pool :
  pool ≠ [] →
  ∃ x, pool !! Z.to_nat (current_index lb mod Z.of_nat (length pool)) = Some x ∧
       pick_at_cursor lb pool
       = (set_current_index (current_index lb + 1) lb, Return x).
Proof.
  intros Hne.
  destruct (lookup_lt_is_Some_2 pool _ (cursor_in_range pool (current_index lb) Hne))
    as [x Hx].
  exists x. split; [done|]. unfold pick_at_cursor. rewrite Hx.
  destruct pool; [done|]. done.
Qed.

Lemma select_server_cursor lb rnd :
  (2 ≤ length (get_healthy_servers lb))%nat →
  selection_pool lb ≠ [] →
  select_server lb rnd
  = (set_current_index (current_index lb + 1) lb,
     pool_at (selection_pool lb) (current_index lb)).
Proof.
  intros Hlen Hne. unfold select_server, selection_pool, pool_at in *.
  destruct (get_healthy_servers lb) as [|a [|b l]] eqn:E;
    [simpl in Hlen; lia | simpl in Hlen; lia |].
  destruct (algorithm lb); try done.
  - unfold _round_robin_selection.
    destruct (pick_at_cursor_nonempty lb _ Hne) as (x & Hx & ->).
    by rewrite Hx.
  - unfold _weighted_round_robin_selection.
    destruct (pick_at_cursor_nonempty lb _ Hne) as (x & Hx & ->).
    by rewrite Hx.
Qed.

Lemma select_many_cursor rnds : ∀ lb,
  (2 ≤ length (get_healthy_servers lb))%nat →
  selection_pool lb ≠ [] →
  select_many rnds lb
  = (set_current_index (current_index lb + Z.of_nat (length rnds)) lb,
     (λ k : nat, pool_at (selection_pool lb) (current_index lb + Z.of_nat k))
       <$> seq 0 (length rnds)).
Proof.
  induction rnds as [|r rnds IH]; intros lb Hlen Hne.
  - simpl. rewrite Z.add_0_r. by destruct lb.
  - cbn [select_many]. rewrite select_server_cursor by done.
    set (lb1 := set_current_index (current_index lb + 1) lb).
    rewrite (IH lb1) by done.
    change (selection_pool lb1) with (selection_pool lb).
    change (current_index lb1) with (current_index lb + 1).
    f_equal.
    + unfold lb1, set_current_index. simpl. f_equal.
      rewrite Nat2Z.inj_succ. lia.
    + cbn [length seq fmap list_fmap]. rewrite Z.add_0_r. f_equal.
      rewrite <- fmap_S_seq, <- list_fmap_compose.
      apply list_fmap_ext. intros i k _. simpl. f_equal.
      rewrite Nat2Z.inj_succ. lia.
Qed.

Lemma pool_at_rotate (pool : list server_ref) (c : Z) (k : nat) :
  (k < length pool)%nat →
  pool !! Z.to_nat ((c + Z.of_nat k) mod Z.of_nat (length pool))
  = rotate (Z.to_nat (c mod Z.of_nat (length pool))) pool !! k.
Proof.
  intros Hk. rewrite lookup_rotate_r by done. unfold rotate_nat_add.
  assert (0 < Z.of_nat (length pool)) by lia.
  rewrite Z2Nat.id by (apply Z.mod_pos_bound; lia).
  by rewrite Zplus_mod_idemp_l.
Qed.

Lemma rotate_singleton {A} (n : nat) (a : A) : rotate n [a] = [a].
Proof. unfold rotate. cbn [length]. by rewrite Nat.mod_1_r. Qed.

(** C2, as amended. Under [round_robin]: the helper
    [_round_robin_selection] returns the entry at [cursor mod N] of any
    non-empty list and advances the cursor by one; so does [select_server]
    when two or more backends are eligible; with exactly one eligible
    backend [select_server] returns it and leaves the cursor where it was;
    and [N] consecutive selections over the [N] eligible backends return
    the eligible list rotated to the cursor position, that is every
    backend once, in registry order, starting at [cursor mod N]. *)
Theorem C2_round_robin (lb : LoadBalancer) :
  algorithm lb = ROUND_ROBIN →
  (∀ pool : list server_ref, pool ≠ [] →
     ∃ x, pool !! Z.to_nat (current_index lb mod Z.of_nat (length pool)) = Some x ∧
          _round_robin_selection lb pool
          = (set_current_index (current_index lb + 1) lb, Return x)) ∧
  (∀ rnd, (2 ≤ length (get_healthy_servers lb))%nat →
     ∃ x, get_healthy_servers lb
            !! Z.to_nat (current_index lb
                         mod Z.of_nat (length (get_healthy_servers lb))) = Some x ∧
          select_server lb rnd
          = (set_current_index (current_index lb + 1) lb, Return (Some x))) ∧
  (∀ rnd x, get_healthy_servers lb = [x] →
     select_server lb rnd = (lb, Return (Some x))) ∧
  (∀ rnds, length rnds = length (get_healthy_servers lb) →
     (select_many rnds lb).2
     = (λ x, Return (Some x))
         <$> rotate (Z.to_nat (current_index lb
                               mod Z.of_nat (length (get_healthy_servers lb))))
               (get_healthy_servers lb)).
Proof.
  intros Halg.
  assert (Hpool : selection_pool lb = get_healthy_servers lb)
    by (unfold selection_pool; by rewrite Halg).
  split; [|split; [|split]].
  - intros pool Hne. by apply pick_at_cursor_nonempty.
  - intros rnd Hlen.
    assert (Hne : get_healthy_servers lb ≠ [])
      by (destruct (get_healthy_servers lb); [simpl in Hlen; lia | done]).
    destruct (lookup_lt_is_Some_2 _ _
                (cursor_in_range (get_healthy_servers lb) (current_index lb) Hne))
      as [x Hx].
    exists x. split; [done|].
    rewrite select_server_cursor by (by rewrite ?Hpool).
    unfold pool_at. by rewrite Hpool, Hx.
  - intros rnd x Hx. unfold select_server. by rewrite Hx.
  - intros rnds Hlen.
    destruct (get_healthy_servers lb) as [|a [|b l]] eqn:E.
    + destruct rnds; [|simpl in Hlen; lia].
      unfold rotate. by rewrite drop_nil, take_nil.
    + destruct rnds as [|r [|r' rnds]]; try (simpl in Hlen; lia).
      cbn [select_many]. unfold select_server. rewrite E.
      by rewrite rotate_singleton.
    + rewrite select_many_cursor; rewrite ?Hpool, ?E; [|simpl; lia|done].
      cbn [snd]. rewrite Hlen. apply list_eq. intros k.
      rewrite !list_lookup_fmap.
      destruct (decide (k < length (a :: b :: l))%nat) as [Hk|Hk].
      * rewrite lookup_seq_lt by done. cbn [fmap option_fmap option_map].
        unfold pool_at. rewrite pool_at_rotate by done.
        rewrite Nat.add_0_l.
        destruct (lookup_lt_is_Some_2 (rotate (Z.to_nat (current_index lb
                     mod Z.of_nat (length (a :: b :: l)))) (a :: b :: l)) k)
          as [y Hy]; [by rewrite length_rotate|].
        by rewrite Hy.
      * rewrite lookup_seq_ge by lia.
        rewrite lookup_ge_None_2; [done|]. rewrite length_rotate. lia.
Qed.

(** C2 as stated fails when a single backend is eligible: it is returned
    and the cursor stays at 0, where an increment would leave it at 1. *)
Lemma C2_counterexample :
  algorithm (lb_of [srvA] ROUND_ROBIN) = ROUND_ROBIN ∧
  get_healthy_servers (lb_of [srvA] ROUND_ROBIN) = [(0%nat, srvA)] ∧
  current_index (lb_of [srvA] ROUND_ROBIN) = 0 ∧
  select_server (lb_of [srvA] ROUND_ROBIN) 0
  = (lb_of [srvA] ROUND_ROBIN, Return (Some (0%nat, srvA))) ∧
  current_index (select_server (lb_of [srvA] ROUND_ROBIN) 0).1 = 0.
Proof. repeat split. Qed.

Lemma C2_witness :
  (select_many [0; 0; 0]%nat
     (mkLoadBalancer [srvA; srvB; srvC] 4 ROUND_ROBIN 30)).2
  = [Return (Some (1%nat, srvB)); Return (Some (2%nat, srvC));
     Return (Some (0%nat, srvA))].
Proof.
  destruct (C2_round_robin (mkLoadBalancer [srvA; srvB; srvC] 4 ROUND_ROBIN 30)
              eq_refl) as (_ & _ & _ & H).
  rewrite (H [0; 0; 0]%nat eq_refl). reflexivity.
Defined.

(** ** Weighted round robin *)

Lemma select_many_single rnds : ∀ lb s,
  get_healthy_servers lb = [s] →
  select_many rnds lb = (lb, replicate (length rnds) (Return (Some s))).
Proof.
  induction rnds as [|r rnds IH]; intros lb s Hs; [done|].
  cbn [select_many]. unfold select_server at 1. rewrite Hs.
  by rewrite (IH lb s Hs).
Qed.

Lemma pool_at_replicate (n : nat) (s : server_ref) (c : Z) :
  n ≠ 0%nat → pool_at (replicate n s) c = Return (Some s).
Proof.
  intros Hn. unfold pool_at. f_equal. apply lookup_replicate_2.
  rewrite <- (length_replicate n s) at 2. apply cursor_in_range.
  by destruct n.
Qed.

Lemma weighted_pattern_3_1 (a b : server_ref) (k : nat) :
  pool_at [a; a; a; b] (0 + Z.of_nat k)
  = Return (Some (if (k `mod` 4 <? 3)%nat then a else b)).
Proof.
  unfold pool_at. f_equal. rewrite Z.add_0_l.
  change (Z.of_nat (length [a; a; a; b])) with (Z.of_nat 4).
  rewrite <- Nat2Z.inj_mod, Nat2Z.id.
  pose proof (Nat.mod_upper_bound k 4 ltac:(lia)) as Hlt.
  destruct (k `mod` 4)%nat as [|[|[|[|m]]]]; try done. lia.
Qed.

(** C3. Under [weighted_round_robin]: the list the code builds is the
    conceptual sequence in which each eligible backend appears [weight]
    consecutive times in registry order; with two or more eligible backends
    a selection is exactly the round-robin selection over that sequence;
    whenever the sequence is not empty, consecutive selections return its
    entries at [cursor], [cursor + 1], ... modulo its length; and for
    eligible backends [[a; b]] of weights 3 and 1 and cursor 0 the
    selections are a, a, a, b, a, a, a, b, ... *)
Theorem C3_weighted_round_robin (lb : LoadBalancer) :
  algorithm lb = WEIGHTED_ROUND_ROBIN →
  weighted_servers (get_healthy_servers lb)
  = conceptual_sequence (get_healthy_servers lb) ∧
  (∀ rnd, (2 ≤ length (get_healthy_servers lb))%nat →
     select_server lb rnd
     = ((_round_robin_selection lb
           (conceptual_sequence (get_healthy_servers lb))).1,
        option_result
          (_round_robin_selection lb
             (conceptual_sequence (get_healthy_servers lb))).2)) ∧
  (∀ rnds, conceptual_sequence (get_healthy_servers lb) ≠ [] →
     (select_many rnds lb).2
     = (λ k : nat, pool_at (conceptual_sequence (get_healthy_servers lb))
                     (current_index lb + Z.of_nat k))
         <$> seq 0 (length rnds)) ∧
  (∀ a b rnds,
     get_healthy_servers lb = [a; b] →
     weight a.2 = 3 → weight b.2 = 1 → current_index lb = 0 →
     (select_many rnds lb).2
     = (λ k : nat, Return (Some (if (k `mod` 4 <? 3)%nat then a else b)))
         <$> seq 0 (length rnds)).
Proof.
  intros Halg.
  assert (Hpool : selection_pool lb
                  = conceptual_sequence (get_healthy_servers lb))
    by (unfold selection_pool; by rewrite Halg, weighted_servers_conceptual).
  assert (Hmany : ∀ rnds, conceptual_sequence (get_healthy_servers lb) ≠ [] →
     (select_many rnds lb).2
     = (λ k : nat, pool_at (conceptual_sequence (get_healthy_servers lb))
                     (current_index lb + Z.of_nat k))
         <$> seq 0 (length rnds)).
  { intros rnds Hne.
    destruct (get_healthy_servers lb) as [|s [|s' l]] eqn:E.
    - done.
    - rewrite (select_many_single rnds lb s E). cbn [snd].
      cbn [conceptual_sequence] in *. rewrite app_nil_r in *.
      apply list_eq. intros k. rewrite list_lookup_fmap.
      destruct (decide (k < length rnds)%nat) as [Hk|Hk].
      + rewrite lookup_replicate_2, lookup_seq_lt by done. simpl.
        rewrite pool_at_replicate; [done|]. by intros Hz; rewrite Hz in Hne.
      + rewrite lookup_seq_ge by lia. simpl.
        apply lookup_replicate_None. lia.
    - rewrite select_many_cursor; rewrite ?Hpool, ?E; [done|simpl; lia|done]. }
  split; [apply weighted_servers_conceptual|]. split; [|split; [done|]].
  - intros rnd Hlen. unfold select_server.
    destruct (get_healthy_servers lb) as [|s [|s' l]] eqn:E;
      [simpl in Hlen; lia | simpl in Hlen; lia |].
    rewrite Halg. unfold _weighted_round_robin_selection, _round_robin_selection.
    rewrite weighted_servers_conceptual.
    by destruct (pick_at_cursor lb _).
  - intros a b rnds E Ha Hb Hc.
    assert (Hseq : conceptual_sequence (get_healthy_servers lb) = [a; a; a; b])
      by (rewrite E; cbn [conceptual_sequence]; by rewrite Ha, Hb).
    rewrite Hmany by (by rewrite Hseq). rewrite Hseq, Hc.
    apply list_fmap_ext. intros i k _. apply weighted_pattern_3_1.
Qed.

Lemma C3_witness :
  (select_many [0; 0; 0; 0; 0; 0; 0; 0]%nat
     (lb_of [srvA; srvB] WEIGHTED_ROUND_ROBIN)).2
  = [Return (Some (0%nat, srvA)); Return (Some (0%nat, srvA));
     Return (Some (0%nat, srvA)); Return (Some (1%nat, srvB));
     Return (Some (0%nat, srvA)); Return (Some (0%nat, srvA));
     Return (Some (0%nat, srvA)); Return (Some (1%nat, srvB))].
Proof.
  destruct (C3_weighted_round_robin (lb_of [srvA; srvB] WEIGHTED_ROUND_ROBIN)
              eq_refl) as (_ & _ & _ & H).
  rewrite (H (0%nat, srvA) (1%nat, srvB) [0; 0; 0; 0; 0; 0; 0; 0]%nat
             eq_refl eq_refl eq_refl eq_refl).
  reflexivity.
Defined.

(** ** Least connections *)

Lemma min_loop_le {A} (key : A → Z) l : ∀ best,
  key (min_loop key best l) ≤ key best ∧
  ∀ y, y ∈ l → key (min_loop key best l) ≤ key y.
Proof.
  induction l as [|x l IH]; intros best; cbn [min_loop].
  - split; [lia|]. intros y Hy. by apply elem_of_nil in Hy.
  - destruct (IH (if key x <? key best then x else best)) as [Hb Hl].
    assert (Hx : key (if key x <? key best then x else best) ≤ key x ∧
                 key (if key x <? key best then x else best) ≤ key best)
      by (destruct (Z.ltb_spec (key x) (key best)); lia).
    split; [lia|]. intros y Hy.
    apply elem_of_cons in Hy as [->|Hy]; [lia | by apply Hl].
Qed.

(** The loop keeps [best] unless some item is strictly smaller, and then it
    returns the first item below everything before it. *)
Lemma min_loop_first {A} (key : A → Z) l : ∀ best,
  min_loop key best l = best ∨
  ∃ i, l !! i = Some (min_loop key best l) ∧
       key (min_loop key best l) < key best ∧
       ∀ j y, (j < i)%nat → l !! j = Some y →
              key (min_loop key best l) < key y.
Proof.
  induction l as [|x l IH]; intros best; cbn [min_loop]; [by left|].
  destruct (Z.ltb_spec (key x) (key best)) as [Hlt|Hge].
  - right. destruct (IH x) as [->|(i & Hi & Hk & Hj)].
    + exists 0%nat. split; [done|]. split; [done|]. intros j y Hj. lia.
    + exists (S i). split; [done|]. split; [lia|].
      intros [|j] y Hlt' Hy; simpl in Hy.
      * by injection Hy as <-.
      * apply (Hj j y); [lia | done].
  - destruct (IH best) as [Heq|(i & Hi & Hk & Hj)]; [by left|].
    right. exists (S i). split; [done|]. split; [done|].
    intros [|j] y Hlt' Hy; simpl in Hy.
    + injection Hy as <-. lia.
    + apply (Hj j y); [lia | done].
Qed.

Lemma py_min_first {A} (key : A → Z) (l : list A) :
  l ≠ [] →
  ∃ i m, py_min key l = Return m ∧ l !! i = Some m ∧
         (∀ y, y ∈ l → key m ≤ key y) ∧
         (∀ j y, (j < i)%nat → l !! j = Some y → key m < key y).
Proof.
  destruct l as [|x l]; [done|]. intros _. cbn [py_min].
  destruct (min_loop_le key l x) as [Hb Hl].
  assert (Hall : ∀ y, y ∈ x :: l → key (min_loop key x l) ≤ key y).
  { intros y Hy. apply elem_of_cons in Hy as [->|Hy]; [done | by apply Hl]. }
  destruct (min_loop_first key l x) as [Heq|(i & Hi & Hk & Hj)].
  - exists 0%nat, (min_loop key x l). split; [done|].
    split; [by rewrite Heq|]. split; [done|]. intros j y Hj. lia.
  - exists (S i), (min_loop key x l). split; [done|]. split; [done|].
    split; [done|]. intros [|j] y Hlt Hy; simpl in Hy.
    + by injection Hy as <-.
    + apply (Hj j y); [lia | done].
Qed.

(** C4. Under [least_connections], for every non-empty eligible list the
    selection returns an eligible backend whose active-connection count is
    at most that of every eligible backend, and every eligible backend
    before it in registry order has a strictly larger count: among the
    backends sharing the minimum the first one is returned. The registry
    and the cursor are left as they were. *)
Theorem C4_least_connections (lb : LoadBalancer) (rnd : nat) :
  algorithm lb = LEAST_CONNECTIONS →
  get_healthy_servers lb ≠ [] →
  ∃ i x,
    select_server lb rnd = (lb, Return (Some x)) ∧
    get_healthy_servers lb !! i = Some x ∧
    (∀ y, y ∈ get_healthy_servers lb →
          active_connections x.2 ≤ active_connections y.2) ∧
    (∀ j y, (j < i)%nat → get_healthy_servers lb !! j = Some y →
            active_connections x.2 < active_connections y.2).
Proof.
  intros Halg Hne. unfold select_server.
  destruct (get_healthy_servers lb) as [|a [|b l]] eqn:E; [done| |].
  - exists 0%nat, a. split; [done|]. split; [done|]. split.
    + intros y Hy. apply list_elem_of_singleton in Hy as ->. lia.
    + intros j y Hj. lia.
  - rewrite Halg. unfold _least_connections_selection.
    destruct (py_min_first (λ s : server_ref, active_connections s.2)
                (a :: b :: l) Hne) as (i & m & Hm & Hi & Hall & Hfirst).
    exists i, m. rewrite Hm. done.
Qed.

Example least_connections_tie :
  select_server (lb_of tie_registry LEAST_CONNECTIONS) 0
  = (lb_of tie_registry LEAST_CONNECTIONS,
     Return (Some (2%nat, set_active_connections 1 srvC))).
Proof. reflexivity. Qed.

Lemma C4_witness :
  ∃ i x,
    select_server (lb_of tie_registry LEAST_CONNECTIONS) 0
    = (lb_of tie_registry LEAST_CONNECTIONS, Return (Some x)) ∧
    get_healthy_servers (lb_of tie_registry LEAST_CONNECTIONS) !! i = Some x ∧
    (∀ y, y ∈ get_healthy_servers (lb_of tie_registry LEAST_CONNECTIONS) →
          active_connections x.2 ≤ active_connections y.2) ∧
    (∀ j y, (j < i)%nat →
            get_healthy_servers (lb_of tie_registry LEAST_CONNECTIONS) !! j
            = Some y →
            active_connections x.2 < active_connections y.2).
Proof.
  apply (C4_least_connections (lb_of tie_registry LEAST_CONNECTIONS) 0%nat).
  - reflexivity.
  - discriminate.
Defined.

(** ** No eligible backend *)

Lemma healthy_from_none l : ∀ k,
  (∀ s, s ∈ l → enabled s = false ∨ healthy s = false) →
  healthy_from k l = [].
Proof.
  induction l as [|x l IH]; intros k Hall; cbn [healthy_from]; [done|].
  assert (Hx : enabled x && healthy x = false).
  { destruct (Hall x (list_elem_of_here _ _)) as [-> | ->];
      [done | apply andb_false_r]. }
  rewrite Hx. apply IH. intros s Hs. apply Hall. by apply list_elem_of_further.
Qed.

(** C5. When no backend is both enabled and healthy, the eligible list is
    empty, [select_server] returns [None] without raising, and
    [forward_request] returns status 503 with the body "No healthy servers
    available", no response object, and a balancer equal to the one it was
    given, whatever the network would have done. *)
Theorem C5_no_backend_available (lb : LoadBalancer) (method path : string)
    (headers : gmap string string) (data : option (list Byte.byte))
    (rnd : nat) (send : network) :
  (∀ s, s ∈ servers lb → enabled s = false ∨ healthy s = false) →
  get_healthy_servers lb = [] ∧
  select_server lb rnd = (lb, Return None) ∧
  forward_request lb method path headers data rnd send
  = (lb, Return (None, 503, "No healthy servers available")).
Proof.
  intros Hall.
  assert (E : get_healthy_servers lb = [])
    by (by apply healthy_from_none).
  assert (Hsel : select_server lb rnd = (lb, Return None))
    by (unfold select_server; by rewrite E).
  split; [done|]. split; [done|].
  unfold forward_request. by rewrite Hsel.
Qed.

Lemma C5_witness :
  forward_request
    (lb_of [set_enabled false srvA; set_healthy false srvB] ROUND_ROBIN)
    "GET" "/" ∅ None 0 refused
  = (lb_of [set_enabled false srvA; set_healthy false srvB] ROUND_ROBIN,
     Return (None, 503, "No healthy servers available")).
Proof.
  apply (C5_no_backend_available
           (lb_of [set_enabled false srvA; set_healthy false srvB] ROUND_ROBIN)
           "GET" "/" ∅ None 0%nat refused).
  intros s Hs. apply elem_of_cons in Hs as [->|Hs]; [by left|].
  apply list_elem_of_singleton in Hs as ->. by right.
Defined.

(** ** Latency history *)

Lemma record_response_time_drop h t :
  (length h ≤ 10)%nat →
  record_response_time h t = drop (length h + 1 - 10) (h ++ [t]).
Proof.
  intros Hlen. unfold record_response_time. rewrite length_app. simpl length.
  destruct (Z.ltb_spec 10 (Z.of_nat (length h + 1))) as [Hgt|Hle].
  - replace (length h + 1 - 10)%nat with 1%nat by lia.
    by destruct (h ++ [t]).
  - by replace (length h + 1 - 10)%nat with 0%nat by lia.
Qed.

Lemma record_response_time_length h t :
  (length h ≤ 10)%nat → (length (record_response_time h t) ≤ 10)%nat.
Proof.
  intros Hlen. rewrite record_response_time_drop by done.
  rewrite length_drop, length_app. simpl. lia.
Qed.

Lemma record_all_drop ts : ∀ h,
  (length h ≤ 10)%nat →
  record_all h ts = drop (length h + length ts - 10) (h ++ ts).
Proof.
  induction ts as [|t ts IH]; intros h Hlen.
  - unfold record_all. simpl. rewrite app_nil_r.
    by replace (length h + 0 - 10)%nat with 0%nat by lia.
  - change (record_all h (t :: ts))
      with (record_all (record_response_time h t) ts).
    rewrite IH by (by apply record_response_time_length).
    rewrite record_response_time_drop by done.
    rewrite length_drop, length_app. simpl length.
    rewrite <- drop_app_le by (rewrite length_app; simpl; lia).
    rewrite drop_drop, <- app_assoc. simpl. f_equal. lia.
Qed.

Lemma forward_request_success lb method path headers data rnd (send : network)
    lb1 i server response response_time :
  select_server lb rnd = (lb1, Return (Some (i, server))) →
  send (outbound_request server (timeout lb1) method path headers data)
  = Return (response, response_time) →
  forward_request lb method path headers data rnd send
  = (update_server i end_request
       (update_server i (track_response_time response_time)
          (update_server i begin_request lb1)),
     Return (Some response, status_code response, text response)).
Proof. intros Hsel Hsend. unfold forward_request. by rewrite Hsel, Hsend. Qed.

(** The two other ways out of the [try] block: a transport failure is
    answered with 502, any other exception is raised again; both run the
    [finally] clause and record no latency. *)
Lemma forward_request_transport_failure lb method path headers data rnd
    (send : network) lb1 i server msg :
  select_server lb rnd = (lb1, Return (Some (i, server))) →
  send (outbound_request server (timeout lb1) method path headers data)
  = Raise (RequestException msg) →
  forward_request lb method path headers data rnd send
  = (update_server i end_request (update_server i begin_request lb1),
     Return (None, 502, "Bad Gateway: " +:+ msg)).
Proof. intros Hsel Hsend. unfold forward_request. by rewrite Hsel, Hsend. Qed.

Lemma forward_request_other_exception lb method path headers data rnd
    (send : network) lb1 i server e :
  select_server lb rnd = (lb1, Return (Some (i, server))) →
  send (outbound_request server (timeout lb1) method path headers data)
  = Raise e →
  (∀ msg, e ≠ RequestException msg) →
  forward_request lb method path headers data rnd send
  = (update_server i end_request (update_server i begin_request lb1), Raise e).
Proof.
  intros Hsel Hsend Hother. unfold forward_request. rewrite Hsel, Hsend.
  destruct e; try done. by destruct (Hother msg).
Qed.

(** C6. Starting from the empty history of a new backend, after any
    sequence of recorded durations the history has at most 10 entries and
    is the last 10 durations of the sequence in the order they were
    recorded (every prefix of a sequence being a sequence, this holds at
    every point); recording keeps a history of at most 10 entries at most
    10 long; recording on a history of exactly 10 entries drops its first
    entry and puts the new duration last; and both places that record, the
    successful probe and the successful forward, store exactly this. *)
Theorem C6_latency_history :
  (∀ ts : list float,
     (length (record_all [] ts) ≤ 10)%nat ∧
     record_all [] ts = drop (length ts - 10) ts) ∧
  (∀ (h : list float) t,
     (length h ≤ 10)%nat → (length (record_response_time h t) ≤ 10)%nat) ∧
  (∀ (h : list float) t,
     length h = 10%nat →
     record_response_time h t = drop 1 h ++ [t] ∧
     length (record_response_time h t) = 10%nat) ∧
  (∀ (h : list float) t,
     (length h < 10)%nat → record_response_time h t = h ++ [t]) ∧
  (∀ server status response_time now,
     ∃ s', _check_server_health server (Return (status, response_time)) now
           = Return s' ∧
           response_times s'
           = record_response_time (response_times server) response_time) ∧
  (∀ lb method path headers data rnd (send : network) lb1 i server
     response response_time,
     select_server lb rnd = (lb1, Return (Some (i, server))) →
     send (outbound_request server (timeout lb1) method path headers data)
     = Return (response, response_time) →
     response_times
       <$> servers (forward_request lb method path headers data rnd send).1 !! i
     = Some (record_response_time (response_times server) response_time)).
Proof.
  split; [|split; [|split; [|split; [|split]]]].
  - intros ts. rewrite (record_all_drop ts []) by (simpl; lia).
    simpl. split; [|done]. rewrite length_drop. lia.
  - intros h t. apply record_response_time_length.
  - intros h t Hlen. rewrite record_response_time_drop by lia.
    rewrite Hlen. change (10 + 1 - 10)%nat with 1%nat.
    rewrite drop_app_le by lia. split; [done|].
    rewrite length_app, length_drop. simpl. lia.
  - intros h t Hlen. rewrite record_response_time_drop by lia.
    by replace (length h + 1 - 10)%nat with 0%nat by lia.
  - intros server status response_time now. eexists. split; reflexivity.
  - intros lb method path headers data rnd send lb1 i server response
      response_time Hsel Hsend.
    rewrite (forward_request_success _ _ _ _ _ _ _ _ _ _ _ _ Hsel Hsend).
    pose proof (select_server_sound _ _ _ _ Hsel) as [Hin Hsrv].
    apply get_healthy_servers_lookup in Hin.
    cbn [fst]. rewrite !servers_update_server, !list_lookup_alter_eq.
    by rewrite Hsrv, Hin.
Qed.

Lemma C6_witness :
  record_response_time [1; 2; 3; 4; 5; 6; 7; 8; 9; 10]%float 11%float
  = [2; 3; 4; 5; 6; 7; 8; 9; 10; 11]%float ∧
  record_all [] (eleven ++ [12]%float)
  = [3; 4; 5; 6; 7; 8; 9; 10; 11; 12]%float.
Proof.
  destruct C6_latency_history as (Hall & _ & Hfull & _). split.
  - destruct (Hfull [1; 2; 3; 4; 5; 6; 7; 8; 9; 10]%float 11%float eq_refl)
      as [-> _].
    reflexivity.
  - destruct (Hall (eleven ++ [12]%float)) as [_ ->]. reflexivity.
Defined.

(** ** Health probe *)

(** C7, as amended. A probe that gets a response, whatever its status,
    stores the time of the probe, records the measured duration in the
    latency history and marks the backend healthy exactly when the status
    is 200; a probe that fails in transport stores the time of the probe
    and marks the backend unhealthy, and leaves the latency history as it
    was. No other field changes. *)
Theorem C7_health_probe (server : Server) (now : float) :
  (∀ status response_time,
     _check_server_health server (Return (status, response_time)) now
     = Return
         (mkServer (name server) (host server) (port server) (weight server)
            (health_check_path server) (enabled server)
            (status =? 200)
            (active_connections server) (total_requests server)
            now
            (record_response_time (response_times server) response_time))) ∧
  (∀ msg,
     _check_server_health server (Raise (RequestException msg)) now
     = Return
         (mkServer (name server) (host server) (port server) (weight server)
            (health_check_path server) (enabled server)
            false
            (active_connections server) (total_requests server)
            now
            (response_times server))) ∧
  (∀ status : Z, (status =? 200) = true ↔ status = 200).
Proof.
  split; [|split].
  - intros status response_time. reflexivity.
  - intros msg. reflexivity.
  - intros status. apply Z.eqb_eq.
Qed.

(** C7 as stated fails on a transport failure: the history of a new
    backend is still empty after the failed probe, so neither a duration
    nor a sentinel was appended. *)
Lemma C7_counterexample :
  response_times srvA = [] ∧
  _check_server_health srvA (Raise (RequestException "connection refused"))
    1700000000%float
  = Return (set_last_health_check 1700000000%float (set_healthy false srvA)) ∧
  response_times
    (set_last_health_check 1700000000%float (set_healthy false srvA)) = [].
Proof. repeat split. Qed.

(** ** Hop-by-hop headers *)

Lemma lookup_fold_delete (names : list string) : ∀ (m : gmap string string) k,
  fold_left (λ acc h, delete h acc) names m !! k
  = if decide (k ∈ names) then None else m !! k.
Proof.
  induction names as [|h names IH]; intros m k; cbn [fold_left].
  - case_decide as Hin; [by apply elem_of_nil in Hin | done].
  - rewrite IH. destruct (decide (k ∈ names)) as [Hin|Hnin].
    + rewrite decide_True; [done | by apply list_elem_of_further].
    + destruct (decide (k = h)) as [->|Hne].
      * rewrite decide_True by apply list_elem_of_here.
        apply lookup_delete_eq.
      * rewrite decide_False
          by (intros [?|?]%elem_of_cons; [congruence | done]).
        by apply lookup_delete_ne.
Qed.

(** What the stripping loop does: a header is dropped exactly when its name
    is, character for character, one of the eight lower-case names. *)
Lemma strip_hop_by_hop_lookup (headers : gmap string string) (k : string) :
  strip_hop_by_hop headers !! k
  = if decide (k ∈ hop_by_hop_headers) then None else headers !! k.
Proof. apply lookup_fold_delete. Qed.

(** C8, the code at the failing input. With the inbound headers
    [{'Connection': 'keep-alive', 'connection': 'close'}] the outbound
    request keeps [Connection] and only drops the lower-case [connection],
    and the request that [forward_request] hands to the network still
    carries [Connection: keep-alive]. *)
Theorem C8_capitalised_header_forwarded :
  req_headers
    (outbound_request srvA 30 "GET" "/"
       (<["Connection" := "keep-alive"]> {["connection" := "close"]}) None)
    !! "Connection" = Some "keep-alive" ∧
  req_headers
    (outbound_request srvA 30 "GET" "/"
       (<["Connection" := "keep-alive"]> {["connection" := "close"]}) None)
    !! "connection" = None ∧
  (forward_request (lb_of [srvA] ROUND_ROBIN) "GET" "/"
     (<["Connection" := "keep-alive"]> {["connection" := "close"]}) None 0
     refuse_and_report).2
  = Return (None, 502, "Bad Gateway: keep-alive").
Proof.
  assert (H1 : strip_hop_by_hop
                 (<["Connection" := "keep-alive"]> {["connection" := "close"]})
                 !! "Connection" = Some "keep-alive").
  { rewrite strip_hop_by_hop_lookup. rewrite decide_False.
    - apply lookup_insert_eq.
    - unfold hop_by_hop_headers. intros Hin.
      repeat (apply elem_of_cons in Hin as [Hin|Hin]; [discriminate Hin|]).
      by apply elem_of_nil in Hin. }
  split; [exact H1|]. split.
  - cbn [outbound_request req_headers]. rewrite strip_hop_by_hop_lookup.
    apply decide_True. apply list_elem_of_here.
  - unfold forward_request. cbn [select_server lb_of].
    change (select_server (mkLoadBalancer [srvA] 0 ROUND_ROBIN 30) 0)
      with (mkLoadBalancer [srvA] 0 ROUND_ROBIN 30, Return (Some (0%nat, srvA))).
    cbn iota beta. unfold refuse_and_report at 1.
    cbn [outbound_request req_headers]. rewrite H1. reflexivity.
Qed.

(** ** Switching the algorithm *)

Lemma LoadBalancingAlgorithm_of_value_member (a : LoadBalancingAlgorithm) :
  LoadBalancingAlgorithm_of_value (algorithm_value a) = Return a.
Proof. by destruct a. Qed.

Lemma LoadBalancingAlgorithm_of_value_other (v : string) :
  (∀ a, algorithm_value a ≠ v) →
  LoadBalancingAlgorithm_of_value v
  = Raise (ValueError (py_repr v +:+ " is not a valid LoadBalancingAlgorithm")).
Proof.
  intros Hv. unfold LoadBalancingAlgorithm_of_value.
  destruct (String.eqb_spec v "round_robin") as [->|_];
    [by destruct (Hv ROUND_ROBIN)|].
  destruct (String.eqb_spec v "weighted_round_robin") as [->|_];
    [by destruct (Hv WEIGHTED_ROUND_ROBIN)|].
  destruct (String.eqb_spec v "least_connections") as [->|_];
    [by destruct (Hv LEAST_CONNECTIONS)|].
  destruct (String.eqb_spec v "random") as [->|_];
    [by destruct (Hv RANDOM)|].
  done.
Qed.

(** A valid name switches the algorithm and resets the cursor to 0. *)
Lemma update_algorithm_member (lb : LoadBalancer) (a : LoadBalancingAlgorithm) :
  update_algorithm lb (algorithm_value a)
  = mkLoadBalancer (servers lb) 0 a (timeout lb).
Proof.
  unfold update_algorithm. by rewrite LoadBalancingAlgorithm_of_value_member.
Qed.

(** The sibling route does report a bad request. *)
Lemma manage_server_invalid_action (lb : LoadBalancer) (server_name : string) :
  manage_server lb server_name "restart"
  = (lb, mkReply 400 "error" "Invalid action").
Proof. reflexivity. Qed.

Lemma manage_server_unknown_server (lb : LoadBalancer) :
  servers lb = [srvA; srvB] →
  (manage_server lb "Z" "disable").2 = mkReply 404 "error" "Server not found".
Proof. intros H. unfold manage_server, toggle_server. by rewrite H. Qed.

(** C9, the code at the failing input. The name [bogus] is no member of
    the enumeration, the balancer is left as it was, and the route still
    answers with status 200 and the message "Algorithm changed to bogus". *)
Theorem C9_invalid_name_reports_success (lb : LoadBalancer) :
  LoadBalancingAlgorithm_of_value "bogus"
  = Raise (ValueError "'bogus' is not a valid LoadBalancingAlgorithm") ∧
  change_algorithm lb "bogus"
  = (lb, mkReply 200 "message" "Algorithm changed to bogus").
Proof. split; reflexivity. Qed.

(** C10. When the string is none of the four algorithm identifiers,
    [update_algorithm] returns the balancer it was given: the algorithm,
    the cursor and the registry are unchanged. *)
Theorem C10_invalid_update_no_effect (lb : LoadBalancer) (v : string) :
  (∀ a, algorithm_value a ≠ v) →
  update_algorithm lb v = lb ∧
  algorithm (update_algorithm lb v) = algorithm lb ∧
  current_index (update_algorithm lb v) = current_index lb.
Proof.
  intros Hv. unfold update_algorithm.
  by rewrite (LoadBalancingAlgorithm_of_value_other v Hv).
Qed.

Lemma C10_witness :
  update_algorithm (mkLoadBalancer [srvA; srvB] 7 LEAST_CONNECTIONS 30) "bogus"
  = mkLoadBalancer [srvA; srvB] 7 LEAST_CONNECTIONS 30.
Proof.
  apply (C10_invalid_update_no_effect
           (mkLoadBalancer [srvA; srvB] 7 LEAST_CONNECTIONS 30) "bogus").
  intros a. destruct a; discriminate.
Defined.

(** * Further properties of the code *)

(** ** The eligible list *)

Lemma healthy_from_elem l : ∀ k i s,
  (i, s) ∈ healthy_from k l ↔
  (k ≤ i)%nat ∧ l !! (i - k)%nat = Some s ∧ enabled s = true ∧ healthy s = true.
Proof.
  induction l as [|x l IH]; intros k i s; cbn [healthy_from].
  - split; [intros H; by apply elem_of_nil in H | by intros (_ & H & _)].
  - assert (Hrest : (i, s) ∈ healthy_from (S k) l ↔
                    (S k ≤ i)%nat ∧ (x :: l) !! (i - k)%nat = Some s ∧
                    enabled s = true ∧ healthy s = true).
    { rewrite IH. split; intros (Hle & Hl & He); (split; [done|]); split; try done.
      - by replace (i - k)%nat with (S (i - S k)) by lia.
      - by replace (i - k)%nat with (S (i - S k)) in Hl by lia. }
    destruct (enabled x && healthy x) eqn:Ex.
    + rewrite elem_of_cons, Hrest. apply andb_prop in Ex as [Ee Eh]. split.
      * intros [[= -> ->]|(Hle & Hl & He)].
        -- rewrite Nat.sub_diag. by repeat split.
        -- split; [lia | done].
      * intros (Hle & Hl & He).
        destruct (decide (i = k)) as [->|Hne].
        -- left. rewrite Nat.sub_diag in Hl. by injection Hl as ->.
        -- right. split; [lia | done].
    + rewrite Hrest. split; [intros (Hle & H); split; [lia | done]|].
      intros (Hle & Hl & Hen & Hh).
      destruct (decide (i = k)) as [->|Hne]; [|split; [lia | done]].
      rewrite Nat.sub_diag in Hl. injection Hl as ->.
      by rewrite Hen, Hh in Ex.
Qed.

Lemma healthy_from_increasing l : ∀ k p q i s j t,
  (p < q)%nat →
  healthy_from k l !! p = Some (i, s) →
  healthy_from k l !! q = Some (j, t) →
  (i < j)%nat.
Proof.
  induction l as [|x l IH]; intros k p q i s j t Hpq Hp Hq;
    cbn [healthy_from] in *; [done|].
  destruct (enabled x && healthy x); [|by eapply IH].
  destruct q as [|q]; [lia|]. simpl in Hq.
  destruct p as [|p]; simpl in Hp.
  - injection Hp as <- <-.
    apply list_elem_of_lookup_2, healthy_from_elem in Hq. lia.
  - eapply (IH (S k) p q); [lia | done..].
Qed.

(** X1. The eligible list holds exactly the registry positions whose server
    is enabled and healthy, each with the server found there, and lists
    them in increasing position. *)
Theorem eligible_exactly_enabled_and_healthy (lb : LoadBalancer) :
  (∀ i s, (i, s) ∈ get_healthy_servers lb ↔
          servers lb !! i = Some s ∧ enabled s = true ∧ healthy s = true) ∧
  (∀ p q i s j t, (p < q)%nat →
     get_healthy_servers lb !! p = Some (i, s) →
     get_healthy_servers lb !! q = Some (j, t) →
     (i < j)%nat).
Proof.
  split.
  - intros i s. unfold get_healthy_servers. rewrite healthy_from_elem.
    rewrite Nat.sub_0_r. split; [by intros (_ & H) | intros H; split; [lia | done]].
  - intros p q i s j t. apply healthy_from_increasing.
Qed.

(** ** What a selection can do *)

Lemma option_result_not_none {A} (r : result A) :
  option_result r ≠ Return None.
Proof. by destruct r. Qed.

Lemma pick_at_cursor_frame lb pool :
  servers (pick_at_cursor lb pool).1 = servers lb ∧
  algorithm (pick_at_cursor lb pool).1 = algorithm lb ∧
  timeout (pick_at_cursor lb pool).1 = timeout lb ∧
  (current_index (pick_at_cursor lb pool).1 = current_index lb ∨
   current_index (pick_at_cursor lb pool).1 = current_index lb + 1).
Proof.
  unfold pick_at_cursor. destruct (_ =? 0); [by auto|].
  destruct (pool !! _); simpl; auto.
Qed.

(** X2. [select_server] returns [None] exactly when no backend is
    eligible. *)
Theorem select_none_iff_no_eligible (lb : LoadBalancer) (rnd : nat) :
  (select_server lb rnd).2 = Return None ↔ get_healthy_servers lb = [].
Proof.
  unfold select_server.
  destruct (get_healthy_servers lb) as [|a [|b l]] eqn:E; [done | done |].
  split; [|done]. intros H. exfalso. revert H.
  destruct (algorithm lb); cbn [snd].
  - destruct (_round_robin_selection _ _). apply option_result_not_none.
  - destruct (_weighted_round_robin_selection _ _). apply option_result_not_none.
  - apply option_result_not_none.
  - apply option_result_not_none.
Qed.

(** X3. A selection never writes the registry, the algorithm or the
    timeout; it moves the cursor by one step or not at all; under
    [least_connections] and [random] it leaves the balancer exactly as it
    was; and a backend it returns is one of the eligible ones. *)
Theorem select_server_frame (lb : LoadBalancer) (rnd : nat) :
  servers (select_server lb rnd).1 = servers lb ∧
  algorithm (select_server lb rnd).1 = algorithm lb ∧
  timeout (select_server lb rnd).1 = timeout lb ∧
  (current_index (select_server lb rnd).1 = current_index lb ∨
   current_index (select_server lb rnd).1 = current_index lb + 1) ∧
  (algorithm lb = LEAST_CONNECTIONS ∨ algorithm lb = RANDOM →
   (select_server lb rnd).1 = lb) ∧
  (∀ x, (select_server lb rnd).2 = Return (Some x) →
        x ∈ get_healthy_servers lb).
Proof.
  assert (Hsound : ∀ x, (select_server lb rnd).2 = Return (Some x) →
                        x ∈ get_healthy_servers lb).
  { intros x Hx. destruct (select_server lb rnd) as [lb1 r] eqn:S.
    simpl in Hx. subst r. by apply select_server_sound in S as [? _]. }
  unfold select_server in *.
  destruct (get_healthy_servers lb) as [|a [|b l]] eqn:E;
    [by repeat split; auto; intros []..|].
  destruct (algorithm lb) eqn:Halg.
  - unfold _round_robin_selection in *.
    pose proof (pick_at_cursor_frame lb (a :: b :: l)) as (H1 & H2 & H3 & H4).
    destruct (pick_at_cursor lb (a :: b :: l)) as [lb' r].
    rewrite Halg in H2.
    split_and!; try done; try exact Hsound. by intros [|].
  - unfold _weighted_round_robin_selection in *.
    pose proof (pick_at_cursor_frame lb (weighted_servers (a :: b :: l)))
      as (H1 & H2 & H3 & H4).
    destruct (pick_at_cursor lb _) as [lb' r].
    rewrite Halg in H2.
    split_and!; try done; try exact Hsound. by intros [|].
  - split_and!; auto.
  - split_and!; auto.
Qed.

Lemma select_server_frame_witness :
  (select_server (mkLoadBalancer [srvA; srvB; srvC] 9 RANDOM 30) 4).1
  = mkLoadBalancer [srvA; srvB; srvC] 9 RANDOM 30.
Proof.
  destruct (select_server_frame (mkLoadBalancer [srvA; srvB; srvC] 9 RANDOM 30)
              4%nat) as (_ & _ & _ & _ & H & _).
  apply H. by right.
Defined.

Lemma conceptual_sequence_nonempty (l : list server_ref) :
  l ≠ [] → (∀ x, x ∈ l → 1 ≤ weight x.2) → conceptual_sequence l ≠ [].
Proof.
  destruct l as [|x l]; [done|]. intros _ Hw. cbn [conceptual_sequence].
  pose proof (Hw x (list_elem_of_here _ _)) as Hx.
  destruct (Z.to_nat (weight x.2)) as [|n] eqn:En; [lia | done].
Qed.

Lemma conceptual_sequence_empty (l : list server_ref) :
  (∀ x, x ∈ l → weight x.2 ≤ 0) → conceptual_sequence l = [].
Proof.
  induction l as [|x l IH]; intros Hw; [done|]. cbn [conceptual_sequence].
  rewrite IH by (intros y Hy; apply Hw; by apply list_elem_of_further).
  pose proof (Hw x (list_elem_of_here _ _)) as Hx.
  by replace (Z.to_nat (weight x.2)) with 0%nat by lia.
Qed.

(** X4. With at least one eligible backend and every eligible weight at
    least 1, a selection raises nothing and returns an eligible backend,
    whatever the algorithm, the cursor and the random draw. *)
Theorem select_server_succeeds (lb : LoadBalancer) (rnd : nat) :
  get_healthy_servers lb ≠ [] →
  (∀ x, x ∈ get_healthy_servers lb → 1 ≤ weight x.2) →
  ∃ x, (select_server lb rnd).2 = Return (Some x) ∧
       x ∈ get_healthy_servers lb.
Proof.
  intros Hne Hw.
  assert (Hsome : ∃ x, (select_server lb rnd).2 = Return (Some x)).
  { unfold select_server.
    destruct (get_healthy_servers lb) as [|a [|b l]] eqn:E; [done | by eexists |].
    destruct (algorithm lb).
    - unfold _round_robin_selection.
      destruct (pick_at_cursor_nonempty lb (a :: b :: l) Hne) as (x & _ & ->).
      by exists x.
    - unfold _weighted_round_robin_selection.
      rewrite weighted_servers_conceptual.
      destruct (pick_at_cursor_nonempty lb (conceptual_sequence (a :: b :: l))
                  (conceptual_sequence_nonempty _ Hne Hw)) as (x & _ & ->).
      by exists x.
    - by eexists.
    - unfold random_choice.
      destruct (lookup_lt_is_Some_2 (a :: b :: l)
                  (rnd `mod` length (a :: b :: l))%nat) as [x Hx].
      { apply Nat.mod_upper_bound. simpl. lia. }
      rewrite Hx. by exists x. }
  destruct Hsome as [x Hx]. exists x. split; [done|].
  destruct (select_server lb rnd) as [lb1 r] eqn:S. simpl in Hx. subst r.
  by apply select_server_sound in S as [? _].
Qed.

Lemma select_server_succeeds_witness :
  ∃ x, (select_server (lb_of [srvA; srvB; srvC] RANDOM) 7).2
       = Return (Some x) ∧
       x ∈ get_healthy_servers (lb_of [srvA; srvB; srvC] RANDOM).
Proof.
  apply (select_server_succeeds (lb_of [srvA; srvB; srvC] RANDOM) 7).
  - discriminate.
  - intros x Hx.
    repeat (apply elem_of_cons in Hx as [->|Hx]; [simpl; lia|]).
    by apply elem_of_nil in Hx.
Defined.

(** X5. Under [weighted_round_robin], with two or more eligible backends
    none of which has a positive weight, the expanded list is empty and the
    selection raises [ZeroDivisionError]; [forward_request] lets it
    through, before its [try] block, and the balancer is left as it was. *)
Theorem weighted_selection_without_weight_raises (lb : LoadBalancer)
    (method path : string) (headers : gmap string string)
    (data : option (list Byte.byte)) (rnd : nat) (send : network) :
  algorithm lb = WEIGHTED_ROUND_ROBIN →
  (2 ≤ length (get_healthy_servers lb))%nat →
  (∀ x, x ∈ get_healthy_servers lb → weight x.2 ≤ 0) →
  select_server lb rnd = (lb, Raise ZeroDivisionError) ∧
  forward_request lb method path headers data rnd send
  = (lb, Raise ZeroDivisionError).
Proof.
  intros Halg Hlen Hw.
  assert (Hsel : select_server lb rnd = (lb, Raise ZeroDivisionError)).
  { unfold select_server.
    destruct (get_healthy_servers lb) as [|a [|b l]] eqn:E;
      [simpl in Hlen; lia | simpl in Hlen; lia |].
    rewrite Halg. unfold _weighted_round_robin_selection.
    rewrite weighted_servers_conceptual, (conceptual_sequence_empty _ Hw).
    reflexivity. }
  split; [done|]. unfold forward_request. by rewrite Hsel.
Qed.

Lemma weighted_selection_without_weight_raises_witness :
  forward_request
    (lb_of [new_server "A" "h" 1 0 "/health" true;
            new_server "B" "h" 2 0 "/health" true] WEIGHTED_ROUND_ROBIN)
    "GET" "/" ∅ None 0 refused
  = (lb_of [new_server "A" "h" 1 0 "/health" true;
            new_server "B" "h" 2 0 "/health" true] WEIGHTED_ROUND_ROBIN,
     Raise ZeroDivisionError).
Proof.
  apply (weighted_selection_without_weight_raises
           (lb_of [new_server "A" "h" 1 0 "/health" true;
                   new_server "B" "h" 2 0 "/health" true] WEIGHTED_ROUND_ROBIN)
           "GET" "/" ∅ None 0%nat refused).
  - reflexivity.
  - simpl. lia.
  - intros x Hx.
    repeat (apply elem_of_cons in Hx as [->|Hx]; [simpl; lia|]).
    by apply elem_of_nil in Hx.
Defined.

(** ** Full cycles of the cursor *)

Lemma rotate_0 {A} (l : list A) : rotate 0 l = l.
Proof. unfold rotate. rewrite Nat.Div0.mod_0_l. simpl. by rewrite app_nil_r. Qed.

Lemma rotate_permutation {A} (n : nat) (l : list A) : rotate n l ≡ₚ l.
Proof.
  unfold rotate. rewrite Permutation_app_comm. by rewrite take_drop.
Qed.

Lemma select_many_full_cycle lb rnds :
  (2 ≤ length (get_healthy_servers lb))%nat →
  selection_pool lb ≠ [] →
  length rnds = length (selection_pool lb) →
  (select_many rnds lb).2
  = (λ x, Return (Some x))
      <$> rotate (Z.to_nat (current_index lb
                            mod Z.of_nat (length (selection_pool lb))))
            (selection_pool lb).
Proof.
  intros Hlen Hne Hr. rewrite select_many_cursor by done. cbn [snd].
  rewrite Hr. apply list_eq. intros k. rewrite !list_lookup_fmap.
  destruct (decide (k < length (selection_pool lb))%nat) as [Hk|Hk].
  - rewrite lookup_seq_lt by done. cbn [fmap option_fmap option_map].
    unfold pool_at. rewrite pool_at_rotate by done. rewrite Nat.add_0_l.
    destruct (lookup_lt_is_Some_2
                (rotate (Z.to_nat (current_index lb
                                   mod Z.of_nat (length (selection_pool lb))))
                   (selection_pool lb)) k) as [y Hy];
      [by rewrite length_rotate|].
    by rewrite Hy.
  - rewrite lookup_seq_ge by lia.
    rewrite lookup_ge_None_2; [done|]. rewrite length_rotate. lia.
Qed.

Lemma healthy_from_NoDup l : ∀ k, NoDup (healthy_from k l).*1.
Proof.
  induction l as [|x l IH]; intros k; cbn [healthy_from]; [constructor|].
  destruct (enabled x && healthy x); [|apply IH].
  rewrite fmap_cons. apply NoDup_cons. split; [|apply IH].
  intros Hin. apply list_elem_of_fmap in Hin as ([i s] & Hi & Hin).
  simpl in Hi. subst i. apply healthy_from_elem in Hin. lia.
Qed.

Lemma filter_none {A} (P : A → Prop) `{∀ x, Decision (P x)} (l : list A) :
  (∀ x, x ∈ l → ¬ P x) → filter P l = [].
Proof.
  induction l as [|x l IH]; intros Hn; [done|].
  rewrite filter_cons_False by (apply Hn, list_elem_of_here).
  apply IH. intros y Hy. apply Hn. by apply list_elem_of_further.
Qed.

Lemma filter_replicate_length {A} (P : A → Prop) `{∀ x, Decision (P x)}
    (n : nat) (x : A) :
  length (filter P (replicate n x)) = if decide (P x) then n else 0%nat.
Proof.
  induction n as [|n IH]; simpl; [by case_decide|].
  case_decide as Hx.
  - rewrite filter_cons_True by done. simpl. by rewrite IH.
  - by rewrite filter_cons_False.
Qed.

Lemma conceptual_sequence_count (l : list server_ref) i s :
  NoDup l.*1 → (i, s) ∈ l →
  length (filter (λ y : server_ref, y.1 = i) (conceptual_sequence l))
  = Z.to_nat (weight s).
Proof.
  induction l as [|x l IH]; intros Hnd Hin; [by apply elem_of_nil in Hin|].
  rewrite fmap_cons in Hnd. apply NoDup_cons in Hnd as [Hx Hnd].
  cbn [conceptual_sequence]. rewrite filter_app, length_app.
  rewrite filter_replicate_length.
  apply elem_of_cons in Hin as [<-|Hin].
  - rewrite decide_True by done. rewrite filter_none; [simpl; lia|].
    intros y Hy Hyi. apply Hx. apply list_elem_of_fmap.
    exists y. split; [done|]. by apply conceptual_sequence_elem.
  - rewrite decide_False.
    + by rewrite IH.
    + intros Hxi. apply Hx. apply list_elem_of_fmap. by exists (i, s).
Qed.

Lemma picked_position_count (l : list server_ref) (i : nat) :
  length (filter (λ r, picked_position r = Some i)
            ((λ x, Return (Some x)) <$> l))
  = length (filter (λ y : server_ref, y.1 = i) l).
Proof.
  induction l as [|x l IH]; [done|]. rewrite fmap_cons.
  destruct (decide (x.1 = i)) as [Hx|Hx].
  - rewrite !filter_cons_True by (simpl; congruence). simpl. by rewrite IH.
  - rewrite !filter_cons_False by (simpl; congruence). done.
Qed.

(** X6. Under [weighted_round_robin] with every eligible weight at least
    1, as many consecutive selections as the weights add up to return, in
    some order, the conceptual sequence: every eligible backend is
    returned exactly [weight] times, wherever the cursor started. *)
Theorem weighted_cycle_shares (lb : LoadBalancer) (rnds : list nat) :
  algorithm lb = WEIGHTED_ROUND_ROBIN →
  (∀ x, x ∈ get_healthy_servers lb → 1 ≤ weight x.2) →
  length rnds = length (conceptual_sequence (get_healthy_servers lb)) →
  (select_many rnds lb).2
  ≡ₚ (λ x, Return (Some x)) <$> conceptual_sequence (get_healthy_servers lb) ∧
  (∀ i s, (i, s) ∈ get_healthy_servers lb →
     length (filter (λ r, picked_position r = Some i) (select_many rnds lb).2)
     = Z.to_nat (weight s)).
Proof.
  intros Halg Hw Hr.
  assert (Hperm : (select_many rnds lb).2
            ≡ₚ (λ x, Return (Some x))
                 <$> conceptual_sequence (get_healthy_servers lb)).
  { destruct (get_healthy_servers lb) as [|a [|b l]] eqn:E.
    - destruct rnds; [done | simpl in Hr; lia].
    - rewrite (select_many_single rnds lb a E). cbn [snd].
      cbn [conceptual_sequence] in *. rewrite app_nil_r in *.
      rewrite length_replicate in Hr. by rewrite Hr, fmap_replicate.
    - assert (Hpool : selection_pool lb = conceptual_sequence (a :: b :: l))
        by (unfold selection_pool;
            by rewrite Halg, E, weighted_servers_conceptual).
      assert (Hne : conceptual_sequence (a :: b :: l) ≠ [])
        by (by apply conceptual_sequence_nonempty).
      rewrite select_many_full_cycle;
        rewrite ?Hpool, ?E; [|simpl; lia|done|done].
      by rewrite rotate_permutation. }
  split; [done|]. intros i s Hin.
  rewrite Hperm, picked_position_count.
  apply conceptual_sequence_count; [|done].
  apply healthy_from_NoDup.
Qed.

Lemma weighted_cycle_shares_witness :
  length (filter (λ r, picked_position r = Some 0%nat)
            (select_many [0; 0; 0; 0]%nat
               (mkLoadBalancer [srvA; srvB] 6 WEIGHTED_ROUND_ROBIN 30)).2)
  = 3%nat.
Proof.
  destruct (weighted_cycle_shares
              (mkLoadBalancer [srvA; srvB] 6 WEIGHTED_ROUND_ROBIN 30)
              [0; 0; 0; 0]%nat eq_refl) as [_ H].
  - intros x Hx.
    repeat (apply elem_of_cons in Hx as [->|Hx]; [simpl; lia|]).
    by apply elem_of_nil in Hx.
  - reflexivity.
  - apply (H 0%nat srvA). apply list_elem_of_here.
Defined.

(** X7. After the algorithm is set to [round_robin], whatever the cursor
    and the algorithm were before, as many consecutive selections as there
    are eligible backends return them in registry order starting from the
    first one. *)
Theorem switch_restarts_rotation (lb : LoadBalancer) (rnds : list nat) :
  length rnds = length (get_healthy_servers lb) →
  (select_many rnds (update_algorithm lb "round_robin")).2
  = (λ x, Return (Some x)) <$> get_healthy_servers lb.
Proof.
  intros Hr.
  change (update_algorithm lb "round_robin")
    with (mkLoadBalancer (servers lb) 0 ROUND_ROBIN (timeout lb)).
  set (lb' := mkLoadBalancer (servers lb) 0 ROUND_ROBIN (timeout lb)).
  change (get_healthy_servers lb) with (get_healthy_servers lb') in *.
  destruct (get_healthy_servers lb') as [|a [|b l]] eqn:E.
  - by destruct rnds.
  - rewrite (select_many_single rnds lb' a E).
    by destruct rnds as [|r [|r' rnds]].
  - assert (Hpool : selection_pool lb' = a :: b :: l) by done.
    rewrite select_many_full_cycle; rewrite ?Hpool, ?E; [|simpl; lia|done|done].
    change (current_index lb') with 0. rewrite Z.mod_0_l by done.
    by rewrite rotate_0.
Qed.

Lemma switch_restarts_rotation_witness :
  (select_many [0; 0; 0]%nat
     (update_algorithm (mkLoadBalancer [srvA; srvB; srvC] 5 RANDOM 30)
        "round_robin")).2
  = [Return (Some (0%nat, srvA)); Return (Some (1%nat, srvB));
     Return (Some (2%nat, srvC))].
Proof.
  rewrite (switch_restarts_rotation
             (mkLoadBalancer [srvA; srvB; srvC] 5 RANDOM 30) [0; 0; 0]%nat
             eq_refl).
  reflexivity.
Defined.

(** ** Algorithm names *)

(** X8. The enum lookup and [.value] are inverse to each other; setting a
    member's name stores that member and puts the cursor at 0; setting the
    same name twice is the same as setting it once; and the statistics
    then report the name that was set. *)
Theorem algorithm_name_round_trip :
  (∀ a, LoadBalancingAlgorithm_of_value (algorithm_value a) = Return a) ∧
  (∀ v a, LoadBalancingAlgorithm_of_value v = Return a →
          algorithm_value a = v) ∧
  (∀ lb a, update_algorithm lb (algorithm_value a)
           = mkLoadBalancer (servers lb) 0 a (timeout lb)) ∧
  (∀ lb v, update_algorithm (update_algorithm lb v) v = update_algorithm lb v) ∧
  (∀ py_sum lb v a,
     LoadBalancingAlgorithm_of_value v = Return a →
     stats_algorithm (get_server_stats py_sum (update_algorithm lb v)) = v).
Proof.
  assert (Hinv : ∀ v a, LoadBalancingAlgorithm_of_value v = Return a →
                        algorithm_value a = v).
  { intros v a. unfold LoadBalancingAlgorithm_of_value.
    repeat (match goal with
            | |- context [String.eqb v ?n] =>
                destruct (String.eqb_spec v n) as [->|_]
            end; [by intros [= <-]|]).
    done. }
  split_and!.
  - by intros [].
  - exact Hinv.
  - intros lb a. unfold update_algorithm.
    by rewrite LoadBalancingAlgorithm_of_value_member.
  - intros lb v. unfold update_algorithm.
    by destruct (LoadBalancingAlgorithm_of_value v) as [a|e].
  - intros py_sum lb v a E. unfold update_algorithm. rewrite E. simpl.
    by apply Hinv.
Qed.

Lemma algorithm_name_round_trip_witness :
  algorithm_value LEAST_CONNECTIONS = "least_connections".
Proof.
  destruct algorithm_name_round_trip as (_ & H & _).
  apply (H "least_connections" LEAST_CONNECTIONS). reflexivity.
Defined.

(** ** What a forwarded request can change *)

Lemma select_server_fields lb rnd :
  servers (select_server lb rnd).1 = servers lb ∧
  algorithm (select_server lb rnd).1 = algorithm lb ∧
  timeout (select_server lb rnd).1 = timeout lb ∧
  (current_index (select_server lb rnd).1 = current_index lb ∨
   current_index (select_server lb rnd).1 = current_index lb + 1).
Proof.
  unfold select_server.
  destruct (get_healthy_servers lb) as [|a [|b l]]; [by auto..|].
  destruct (algorithm lb) eqn:Halg; [| |by auto..].
  - unfold _round_robin_selection.
    pose proof (pick_at_cursor_frame lb (a :: b :: l)) as (H1 & H2 & H3 & H4).
    destruct (pick_at_cursor lb (a :: b :: l)) as [lb' r].
    by rewrite Halg in H2.
  - unfold _weighted_round_robin_selection.
    pose proof (pick_at_cursor_frame lb (weighted_servers (a :: b :: l)))
      as (H1 & H2 & H3 & H4).
    destruct (pick_at_cursor lb _) as [lb' r].
    by rewrite Halg in H2.
Qed.

(** The registry after [forward_request]: one entry at most was written,
    and it went through [begin_request], perhaps the latency record, and
    [end_request]. *)
Lemma forward_request_shape lb method path headers data rnd (send : network) :
  ∃ (i : nat) (f : Server → Server),
    servers (forward_request lb method path headers data rnd send).1
    = alter f i (servers lb) ∧
    (f = id ∨
     ∃ g : Server → Server,
       (g = id ∨ ∃ t, g = track_response_time t) ∧
       f = end_request ∘ g ∘ begin_request).
Proof.
  pose proof (select_server_fields lb rnd) as (Hsrv & _).
  unfold forward_request.
  destruct (select_server lb rnd) as [lb1 [[[i server]|]|e]] eqn:Hsel;
    simpl in Hsrv.
  - exists i.
    destruct (send _) as [[response response_time]|e].
    + exists (end_request ∘ track_response_time response_time ∘ begin_request).
      split; [|right; eauto 6].
      simpl. by rewrite Hsrv, !list_alter_alter_eq.
    + exists (end_request ∘ id ∘ begin_request). split; [|right; eauto 6].
      assert (Hid : servers
                (update_server i end_request (update_server i begin_request lb1))
              = alter (end_request ∘ id ∘ begin_request) i (servers lb))
        by (simpl; by rewrite Hsrv, !list_alter_alter_eq).
      by destruct e.
  - exists 0%nat, id. split; [|by left].
    simpl. rewrite Hsrv. symmetry. by apply list_alter_id.
  - exists 0%nat, id. split; [|by left].
    simpl. rewrite Hsrv. symmetry. by apply list_alter_id.
Qed.

Lemma forward_request_fields lb method path headers data rnd (send : network) :
  algorithm (forward_request lb method path headers data rnd send).1
  = algorithm (select_server lb rnd).1 ∧
  timeout (forward_request lb method path headers data rnd send).1
  = timeout (select_server lb rnd).1 ∧
  current_index (forward_request lb method path headers data rnd send).1
  = current_index (select_server lb rnd).1.
Proof.
  unfold forward_request.
  destruct (select_server lb rnd) as [lb1 [[[i server]|]|e]]; [|done..].
  destruct (send _) as [[response response_time]|e]; [done|].
  by destruct e.
Qed.

Lemma fmap_alter_same {A B} (g : A → B) (f : A → A) (i : nat) (l : list A) :
  (∀ x, l !! i = Some x → g (f x) = g x) →
  g <$> alter f i l = g <$> l.
Proof.
  intros Hg. apply list_eq. intros j. rewrite !list_lookup_fmap.
  destruct (decide (i = j)) as [<-|Hne].
  - rewrite list_lookup_alter_eq. destruct (l !! i) as [x|] eqn:E; [|done].
    simpl. f_equal. by apply Hg.
  - by rewrite list_lookup_alter_ne.
Qed.

Lemma healthy_from_positions l1 : ∀ l2 k,
  (λ s, (enabled s, healthy s)) <$> l1 = (λ s, (enabled s, healthy s)) <$> l2 →
  (healthy_from k l1).*1 = (healthy_from k l2).*1.
Proof.
  induction l1 as [|x l1 IH]; intros [|y l2] k Heq; try done.
  rewrite !fmap_cons in Heq. injection Heq as He Hh Heq.
  cbn [healthy_from]. rewrite He, Hh.
  destruct (enabled y && healthy y); [rewrite !fmap_cons; f_equal|]; by apply IH.
Qed.

(** X9. Whatever the network does, a forwarded request leaves every
    backend's name, address, weight, probe path, enabled flag, healthy flag
    and probe time as they were, so the same registry positions are
    eligible afterwards (a backend that failed to answer is not marked
    unhealthy); the algorithm and the timeout are unchanged and the cursor
    moved by one step at most. *)
Theorem forward_request_frame (lb : LoadBalancer) (method path : string)
    (headers : gmap string string) (data : option (list Byte.byte))
    (rnd : nat) (send : network) :
  unforwarded_fields
    <$> servers (forward_request lb method path headers data rnd send).1
  = unforwarded_fields <$> servers lb ∧
  (get_healthy_servers
     (forward_request lb method path headers data rnd send).1).*1
  = (get_healthy_servers lb).*1 ∧
  algorithm (forward_request lb method path headers data rnd send).1
  = algorithm lb ∧
  timeout (forward_request lb method path headers data rnd send).1
  = timeout lb ∧
  (current_index (forward_request lb method path headers data rnd send).1
   = current_index lb ∨
   current_index (forward_request lb method path headers data rnd send).1
   = current_index lb + 1).
Proof.
  destruct (forward_request_shape lb method path headers data rnd send)
    as (i & f & Hsrv & Hf).
  assert (Hkeep : ∀ s, unforwarded_fields (f s) = unforwarded_fields s).
  { intros s. destruct Hf as [->|(g & [->|[t ->]] & ->)]; reflexivity. }
  assert (Hfields : unforwarded_fields
            <$> servers (forward_request lb method path headers data rnd send).1
          = unforwarded_fields <$> servers lb).
  { rewrite Hsrv. apply fmap_alter_same. intros x _. apply Hkeep. }
  pose proof (forward_request_fields lb method path headers data rnd send)
    as (Ha & Ht & Hc).
  pose proof (select_server_fields lb rnd) as (_ & Ha' & Ht' & Hc').
  split_and!; [done| |congruence|congruence|by rewrite Hc].
  unfold get_healthy_servers. apply healthy_from_positions.
  apply (f_equal (fmap (λ t : string * string * Z * Z * string * bool * bool * float,
                          (t.1.1.2, t.1.2)))) in Hfields.
  by rewrite <- !list_fmap_compose in Hfields.
Qed.

(** X10. When no active-connection count is negative beforehand, every
    backend has the same count after a forwarded request as before it,
    whether the request was answered, failed in transport, raised, or
    found no backend. *)
Theorem forward_request_restores_counts (lb : LoadBalancer)
    (method path : string) (headers : gmap string string)
    (data : option (list Byte.byte)) (rnd : nat) (send : network) :
  (∀ s, s ∈ servers lb → 0 ≤ active_connections s) →
  active_connections
    <$> servers (forward_request lb method path headers data rnd send).1
  = active_connections <$> servers lb.
Proof.
  intros Hpos.
  destruct (forward_request_shape lb method path headers data rnd send)
    as (i & f & -> & Hf).
  apply fmap_alter_same. intros x Hx.
  pose proof (Hpos x (list_elem_of_lookup_2 _ _ _ Hx)) as Hx0.
  destruct Hf as [->|(g & [->|[t ->]] & ->)]; [done|..];
    cbn [compose]; rewrite end_request_active; simpl; lia.
Qed.

Lemma forward_request_restores_counts_witness :
  active_connections
    <$> servers (forward_request (lb_of tie_registry ROUND_ROBIN) "GET" "/" ∅
                   None 0 refused).1
  = [4; 3; 1; 2; 5; 1].
Proof.
  rewrite (forward_request_restores_counts (lb_of tie_registry ROUND_ROBIN)
             "GET" "/" ∅ None 0%nat refused).
  - reflexivity.
  - intros s Hs.
    repeat (apply elem_of_cons in Hs as [->|Hs]; [simpl; lia|]).
    by apply elem_of_nil in Hs.
Defined.

(** ** Start-up *)

Lemma _initialize_servers_acc cfg : ∀ acc,
  _initialize_servers cfg acc = acc ++ (server_of_config <$> cfg).
Proof.
  unfold _initialize_servers.
  induction cfg as [|c cfg IH]; intros acc; simpl.
  - by rewrite app_nil_r.
  - by rewrite IH, <- app_assoc.
Qed.

(** X11. Start-up raises [ValueError] when the configured algorithm name
    is none of the four values, before any server is built; otherwise the
    balancer starts with the cursor at 0 and one server per configuration
    entry, in the same order; and every entry that is not disabled in the
    configuration is eligible from the start, before any probe has run. *)
Theorem start_up_outcome (tmo : Z) (cfg : list ServerConfig) :
  (∀ v, (∀ a, algorithm_value a ≠ v) →
        LoadBalancer_init v tmo cfg
        = Raise (ValueError
                   (py_repr v +:+ " is not a valid LoadBalancingAlgorithm"))) ∧
  (∀ a, LoadBalancer_init (algorithm_value a) tmo cfg
        = Return (mkLoadBalancer (server_of_config <$> cfg) 0 a tmo)) ∧
  (∀ a i c, cfg !! i = Some c →
     ((i, server_of_config c)
        ∈ get_healthy_servers (mkLoadBalancer (server_of_config <$> cfg) 0 a tmo)
      ↔ cfg_enabled c ≠ Some false)).
Proof.
  split_and!.
  - intros v Hv. unfold LoadBalancer_init.
    by rewrite (LoadBalancingAlgorithm_of_value_other v Hv).
  - intros a. unfold LoadBalancer_init.
    by rewrite LoadBalancingAlgorithm_of_value_member, _initialize_servers_acc.
  - intros a i c Hc. unfold get_healthy_servers. rewrite healthy_from_elem.
    cbn [servers]. rewrite Nat.sub_0_r, list_lookup_fmap, Hc. simpl.
    destruct (cfg_enabled c) as [[|]|]; simpl; split; try done;
      try (intros _; split_and!; [lia | done..]).
    by intros (_ & _ & ? & _).
Qed.

Lemma start_up_outcome_witness :
  LoadBalancer_init "fastest" 30 sample_config
  = Raise (ValueError "'fastest' is not a valid LoadBalancingAlgorithm").
Proof.
  destruct (start_up_outcome 30 sample_config) as (H & _).
  apply (H "fastest"). intros a. destruct a; discriminate.
Defined.

(** ** The health-check cycle *)

Lemma handled_returns s r now :
  handled r → ∃ s', _check_server_health s r now = Return s'.
Proof.
  destruct r as [[status rt]|e]; [by eexists|].
  destruct e; simpl; try done. by eexists.
Qed.

Lemma health_check_from_handled probe now l : ∀ i,
  (∀ j, handled (probe j)) →
  health_check_from i probe now l
  = (imap (λ j, probed probe now (i + j)) l, None).
Proof.
  induction l as [|s l IH]; intros i Hh; [done|].
  cbn [health_check_from]. rewrite imap_cons, (IH (S i) Hh).
  assert (Hext : imap ((λ j, probed probe now (i + j)) ∘ S) l
                 = imap (λ j, probed probe now (S i + j)) l).
  { apply imap_ext. intros j x _. simpl. f_equal. lia. }
  rewrite Hext, Nat.add_0_r. unfold probed at 3.
  destruct (enabled s); [|done].
  by destruct (handled_returns s (probe i) (now i) (Hh i)) as [s' ->].
Qed.

(** X12. When every probe of a cycle is answered or fails in transport,
    the cycle ends without an exception and keeps the length of the
    registry; a disabled server is left exactly as it was, its healthy flag
    and probe time included; an enabled server is replaced by what
    [_check_server_health] returns for its probe; and afterwards a position
    is eligible exactly when its server is enabled and its probe was
    answered with status 200. *)
Theorem health_cycle_effect (lb : LoadBalancer)
    (probe : nat → result (Z * float)) (now : nat → float) :
  (∀ j, handled (probe j)) →
  (health_check_cycle lb probe now).2 = None ∧
  length (servers (health_check_cycle lb probe now).1) = length (servers lb) ∧
  (∀ i s, servers lb !! i = Some s → enabled s = false →
     servers (health_check_cycle lb probe now).1 !! i = Some s) ∧
  (∀ i s, servers lb !! i = Some s → enabled s = true →
     ∃ s', servers (health_check_cycle lb probe now).1 !! i = Some s' ∧
           _check_server_health s (probe i) (now i) = Return s') ∧
  (∀ i, (∃ s', (i, s') ∈ get_healthy_servers (health_check_cycle lb probe now).1)
        ↔ ∃ s rt, servers lb !! i = Some s ∧ enabled s = true ∧
                  probe i = Return (200, rt)).
Proof.
  intros Hh. unfold health_check_cycle.
  rewrite (health_check_from_handled probe now (servers lb) 0%nat Hh).
  cbn [fst snd servers set_servers].
  assert (Hlook : ∀ i, imap (λ j, probed probe now (0 + j)) (servers lb) !! i
                       = probed probe now i <$> servers lb !! i)
    by (intros i; by rewrite list_lookup_imap).
  split_and!.
  - done.
  - by rewrite length_imap.
  - intros i s Hs He. rewrite Hlook, Hs. simpl. unfold probed. by rewrite He.
  - intros i s Hs He. rewrite Hlook, Hs. simpl. unfold probed. rewrite He.
    destruct (handled_returns s (probe i) (now i) (Hh i)) as [s' Hs'].
    rewrite Hs'. by exists s'.
  - intros i. unfold get_healthy_servers. cbn [servers]. split.
    + intros (s' & Hin). apply healthy_from_elem in Hin as (_ & Hl & He & Hhl).
      rewrite Nat.sub_0_r, Hlook in Hl.
      destruct (servers lb !! i) as [s|] eqn:Hs; [|done].
      simpl in Hl. injection Hl as <-. unfold probed in He, Hhl.
      destruct (enabled s) eqn:Ee.
      * specialize (Hh i).
        destruct (probe i) as [[status rt]|[]]; simpl in *; try done.
        apply Z.eqb_eq in Hhl as ->. by exists s, rt.
      * by rewrite Ee in He.
    + intros (s & rt & Hs & He & Hp).
      exists (probed probe now i s). apply healthy_from_elem.
      rewrite Nat.sub_0_r, Hlook, Hs. split; [lia|]. split; [done|].
      unfold probed. rewrite He, Hp. simpl. done.
Qed.

Lemma health_cycle_effect_witness :
  (health_check_cycle (lb_of [srvA; srvB; set_enabled false srvC] RANDOM)
     alternating_probe (λ _, 5%float)).2 = None ∧
  servers
    (health_check_cycle (lb_of [srvA; srvB; set_enabled false srvC] RANDOM)
       alternating_probe (λ _, 5%float)).1 !! 2%nat
  = Some (set_enabled false srvC).
Proof.
  destruct (health_cycle_effect
              (lb_of [srvA; srvB; set_enabled false srvC] RANDOM)
              alternating_probe (λ _, 5%float)) as (H1 & _ & H3 & _).
  - intros j. exact I.
  - split; [exact H1|]. by apply H3.
Defined.

Lemma health_check_from_crash probe now e l : ∀ i k s,
  l !! k = Some s → enabled s = true →
  probe (i + k)%nat = Raise e → ¬ handled (Raise e) →
  (∀ j, (j < k)%nat → handled (probe (i + j)%nat)) →
  health_check_from i probe now l
  = (imap (λ j, probed probe now (i + j)) (take k l) ++ drop k l, Some e).
Proof.
  induction l as [|x l IH]; intros i k s Hk He Hp Hne Hh; [done|].
  destruct k as [|k]; simpl in Hk.
  - injection Hk as ->. rewrite Nat.add_0_r in Hp.
    cbn [health_check_from take drop imap app]. rewrite He, Hp.
    destruct e; simpl in *; try done; exfalso; by apply Hne.
  - cbn [health_check_from take drop].
    rewrite (IH (S i) k s Hk He); [|by rewrite <- Hp; f_equal; lia|done|].
    2:{ intros j Hj. replace (S i + j)%nat with (i + S j)%nat by lia.
        apply Hh. lia. }
    rewrite imap_cons.
    assert (Hext : imap ((λ j, probed probe now (i + j)) ∘ S) (take k l)
                   = imap (λ j, probed probe now (S i + j)) (take k l)).
    { apply imap_ext. intros j y _. simpl. f_equal. lia. }
    rewrite Hext, Nat.add_0_r. unfold probed at 3.
    destruct (enabled x); [|done].
    specialize (Hh 0%nat ltac:(lia)). rewrite Nat.add_0_r in Hh.
    by destruct (handled_returns x (probe i) (now i) Hh) as [s' ->].
Qed.

(** X13. When the probe of an enabled server raises an exception that is
    not a [requests.RequestException], the cycle stops there with that
    exception: the servers before it have had their turn, and that server
    and all the later ones are left as they were, unprobed. *)
Theorem health_cycle_crash (lb : LoadBalancer)
    (probe : nat → result (Z * float)) (now : nat → float)
    (k : nat) (s : Server) (e : exn) :
  servers lb !! k = Some s → enabled s = true →
  probe k = Raise e → ¬ handled (Raise e) →
  (∀ j, (j < k)%nat → handled (probe j)) →
  (health_check_cycle lb probe now).2 = Some e ∧
  (∀ j, (k ≤ j)%nat →
     servers (health_check_cycle lb probe now).1 !! j = servers lb !! j) ∧
  (∀ j t, (j < k)%nat → servers lb !! j = Some t →
     servers (health_check_cycle lb probe now).1 !! j
     = Some (probed probe now j t)).
Proof.
  intros Hk He Hp Hne Hh. unfold health_check_cycle.
  rewrite (health_check_from_crash probe now e (servers lb) 0%nat k s)
    by done.
  cbn [fst snd servers set_servers].
  assert (Hlen : length (imap (λ j, probed probe now (0 + j)) (take k (servers lb)))
                 = k).
  { rewrite length_imap, length_take. apply lookup_lt_Some in Hk. lia. }
  split_and!; [done|..].
  - intros j Hj. rewrite lookup_app_r by lia. rewrite Hlen, lookup_drop.
    f_equal. lia.
  - intros j t Hj Ht. rewrite lookup_app_l by lia.
    by rewrite list_lookup_imap, lookup_take_lt, Ht.
Qed.

Lemma health_cycle_crash_witness :
  (health_check_cycle (lb_of [srvA; srvB; srvC] RANDOM)
     (λ i, if Nat.eqb i 1 then Raise (OtherException "boom")
           else Return (503, 0.25%float))
     (λ _, 5%float)).2 = Some (OtherException "boom") ∧
  servers
    (health_check_cycle (lb_of [srvA; srvB; srvC] RANDOM)
       (λ i, if Nat.eqb i 1 then Raise (OtherException "boom")
             else Return (503, 0.25%float))
       (λ _, 5%float)).1 !! 2%nat = Some srvC.
Proof.
  destruct (health_cycle_crash (lb_of [srvA; srvB; srvC] RANDOM)
              (λ i, if Nat.eqb i 1 then Raise (OtherException "boom")
                    else Return (503, 0.25%float))
              (λ _, 5%float) 1%nat srvB (OtherException "boom"))
    as (H1 & H2 & _).
  - reflexivity.
  - reflexivity.
  - reflexivity.
  - simpl. tauto.
  - intros j Hj. destruct j as [|j]; [exact I | lia].
  - split; [exact H1|]. by rewrite H2 by lia.
Defined.

(** ** Runs *)

Lemma track_response_time_idle t s :
  server_idle s → server_idle (track_response_time t s).
Proof.
  intros (Ha & Ht & Hl). split_and!; [done..|].
  by apply record_response_time_length.
Qed.

Lemma forward_shape_idle (f : Server → Server) s :
  (f = id ∨
   ∃ g : Server → Server,
     (g = id ∨ ∃ t, g = track_response_time t) ∧
     f = end_request ∘ g ∘ begin_request) →
  server_idle s → server_idle (f s).
Proof.
  intros Hf (Ha & Ht & Hl).
  destruct Hf as [->|(g & [->|[t ->]] & ->)]; [done|..]; cbn [compose].
  - split_and!; [|simpl; lia|done].
    rewrite end_request_active. simpl. lia.
  - split_and!; [|simpl; lia|].
    + rewrite end_request_active. simpl. lia.
    + by apply record_response_time_length.
Qed.

Lemma _check_server_health_idle s r now s' :
  _check_server_health s r now = Return s' →
  server_idle s → server_idle s' ∧ static_fields s' = static_fields s.
Proof.
  intros Hc (Ha & Ht & Hl).
  destruct r as [[status rt]|[]]; simpl in Hc; try done;
    injection Hc as <-; (split; [|done]).
  - split_and!; [done..|]. by apply record_response_time_length.
  - by split_and!.
Qed.

Lemma health_check_from_keeps probe now l : ∀ i,
  Forall server_idle l →
  Forall server_idle (health_check_from i probe now l).1 ∧
  static_fields <$> (health_check_from i probe now l).1 = static_fields <$> l.
Proof.
  induction l as [|s l IH]; intros i Hl; [done|].
  apply Forall_cons in Hl as [Hs Hl]. cbn [health_check_from].
  destruct (IH (S i) Hl) as [IH1 IH2].
  destruct (health_check_from (S i) probe now l) as [r' e'].
  cbn [fst] in IH1, IH2.
  destruct (enabled s).
  - destruct (_check_server_health s (probe i) (now i)) as [s'|e] eqn:Hc.
    + destruct (_check_server_health_idle _ _ _ _ Hc Hs) as [Hs' Hst].
      cbn [fst]. split; [by constructor|].
      by rewrite !fmap_cons, Hst, IH2.
    + cbn [fst]. split; [by constructor | done].
  - cbn [fst]. split; [by constructor|]. by rewrite !fmap_cons, IH2.
Qed.

Lemma toggle_in_keeps l server_name en :
  Forall server_idle l →
  Forall server_idle (toggle_in l server_name en).1 ∧
  static_fields <$> (toggle_in l server_name en).1 = static_fields <$> l.
Proof.
  induction l as [|s l IH]; intros Hl; [done|].
  apply Forall_cons in Hl as [Hs Hl]. cbn [toggle_in].
  destruct (String.eqb (name s) server_name).
  - cbn [fst]. split; [by constructor | done].
  - destruct (IH Hl) as [IH1 IH2].
    destruct (toggle_in l server_name en) as [r' found].
    cbn [fst] in *. split; [by constructor|]. by rewrite !fmap_cons, IH2.
Qed.

Lemma step_invariant cfg tmo lb lb' :
  run_invariant cfg tmo lb → step lb lb' → run_invariant cfg tmo lb'.
Proof.
  intros (Hidle & Hcur & Hst & Htmo) Hstep.
  destruct Hstep as [lb method path headers data rnd send|lb probe now
                    |lb v|lb server_name en].
  - destruct (forward_request_shape lb method path headers data rnd send)
      as (i & f & Hsrv & Hf).
    pose proof (forward_request_fields lb method path headers data rnd send)
      as (_ & Ht & Hc).
    pose proof (select_server_fields lb rnd) as (_ & _ & Ht' & Hc').
    split_and!.
    + rewrite Hsrv. apply Forall_alter; [done|].
      intros x _. by apply forward_shape_idle.
    + rewrite Hc. lia.
    + rewrite Hsrv, <- Hst. apply fmap_alter_same. intros x _.
      destruct Hf as [->|(g & [->|[t ->]] & ->)]; reflexivity.
    + congruence.
  - unfold health_check_cycle.
    destruct (health_check_from_keeps probe now (servers lb) 0%nat Hidle)
      as [H1 H2].
    destruct (health_check_from 0 probe now (servers lb)) as [l e].
    cbn [fst] in H1, H2.
    split_and!; cbn [fst servers set_servers current_index timeout];
      [done..| |done].
    by rewrite H2.
  - unfold update_algorithm.
    destruct (LoadBalancingAlgorithm_of_value v); [|done].
    by split_and!.
  - unfold toggle_server.
    destruct (toggle_in_keeps (servers lb) server_name en Hidle) as [H1 H2].
    destruct (toggle_in (servers lb) server_name en) as [l found].
    cbn [fst] in H1, H2.
    split_and!; cbn [fst servers set_servers current_index timeout];
      [done..| |done].
    by rewrite H2.
Qed.

Lemma run_invariant_start v tmo cfg lb0 :
  LoadBalancer_init v tmo cfg = Return lb0 → run_invariant cfg tmo lb0.
Proof.
  unfold LoadBalancer_init.
  destruct (LoadBalancingAlgorithm_of_value v) as [a|e]; [|done].
  intros [= <-]. rewrite _initialize_servers_acc. simpl.
  split_and!; [|done..].
  apply Forall_fmap, Forall_forall. intros c _.
  split_and!; simpl; [done|done|lia].
Qed.

Lemma run_invariant_reachable cfg tmo lb0 lb :
  run_invariant cfg tmo lb0 → rtc step lb0 lb → run_invariant cfg tmo lb.
Proof.
  intros H0 Hrun. induction Hrun as [|x y z Hxy _ IH]; [done|].
  apply IH. by eapply step_invariant.
Qed.

(** X14. In every run from a successful start-up, whatever requests,
    health-check cycles, algorithm changes and enable/disable calls it is
    made of and whatever the network answers, between two operations every
    backend has an active-connection count of 0, a non-negative total
    request count and a latency history of at most 10 entries; the cursor
    is non-negative; the timeout is the configured one; and the registry
    still holds, in configuration order, servers with the configured
    name, host, port, weight and probe path. *)
Theorem reachable_invariant (v : string) (tmo : Z) (cfg : list ServerConfig)
    (lb0 lb : LoadBalancer) :
  LoadBalancer_init v tmo cfg = Return lb0 →
  rtc step lb0 lb →
  Forall server_idle (servers lb) ∧
  0 ≤ current_index lb ∧
  static_fields <$> servers lb = static_fields <$> (server_of_config <$> cfg) ∧
  length (servers lb) = length cfg ∧
  timeout lb = tmo.
Proof.
  intros Hinit Hrun.
  destruct (run_invariant_reachable cfg tmo lb0 lb
              (run_invariant_start v tmo cfg lb0 Hinit) Hrun)
    as (H1 & H2 & H3 & H4).
  split_and!; try done.
  apply (f_equal length) in H3. by rewrite !length_fmap in H3.
Qed.

Lemma reachable_invariant_witness :
  length
    (servers
       (health_check_cycle
          (forward_request
             (mkLoadBalancer (server_of_config <$> sample_config) 0
                ROUND_ROBIN 30)
             "GET" "/" ∅ None 0 refused).1
          alternating_probe (λ _, 5%float)).1) = 3%nat.
Proof.
  destruct (reachable_invariant "round_robin" 30 sample_config
              (mkLoadBalancer (server_of_config <$> sample_config) 0
                 ROUND_ROBIN 30)
              (health_check_cycle
                 (forward_request
                    (mkLoadBalancer (server_of_config <$> sample_config) 0
                       ROUND_ROBIN 30)
                    "GET" "/" ∅ None 0%nat refused).1
                 alternating_probe (λ _, 5%float)).1)
    as (_ & _ & _ & H & _).
  - reflexivity.
  - eapply rtc_l; [apply step_forward|]. apply rtc_once, step_health.
  - exact H.
Defined.

(** X15. In such a run, under [least_connections], a selection made
    between two operations returns the first eligible backend in registry
    order: all counts are 0 there, and the minimum keeps the first of
    equals. *)
Theorem least_connections_between_requests (v : string) (tmo : Z)
    (cfg : list ServerConfig) (lb0 lb : LoadBalancer) (rnd : nat)
    (x : server_ref) (rest : list server_ref) :
  LoadBalancer_init v tmo cfg = Return lb0 →
  rtc step lb0 lb →
  algorithm lb = LEAST_CONNECTIONS →
  get_healthy_servers lb = x :: rest →
  select_server lb rnd = (lb, Return (Some x)).
Proof.
  intros Hinit Hrun Halg E.
  destruct (run_invariant_reachable cfg tmo lb0 lb
              (run_invariant_start v tmo cfg lb0 Hinit) Hrun)
    as (Hidle & _).
  assert (Hzero : ∀ y, y ∈ get_healthy_servers lb → active_connections y.2 = 0).
  { intros [i s] Hy. apply get_healthy_servers_lookup in Hy.
    rewrite Forall_forall in Hidle.
    by destruct (Hidle s (list_elem_of_lookup_2 _ _ _ Hy)) as [? _]. }
  unfold select_server. rewrite E, Halg.
  destruct rest as [|b l]; [done|].
  unfold _least_connections_selection.
  destruct (py_min_first (λ s : server_ref, active_connections s.2)
              (x :: b :: l) ltac:(done)) as (i & m & Hm & Hi & _ & Hfirst).
  rewrite Hm. destruct i as [|i]; [by injection Hi as ->|].
  exfalso. specialize (Hfirst 0%nat x ltac:(lia) eq_refl).
  rewrite E in Hzero.
  rewrite (Hzero m (list_elem_of_lookup_2 _ _ _ Hi)) in Hfirst.
  rewrite (Hzero x (list_elem_of_here _ _)) in Hfirst. lia.
Qed.

Lemma least_connections_between_requests_witness :
  select_server
    (forward_request
       (mkLoadBalancer (server_of_config <$> sample_config) 0
          LEAST_CONNECTIONS 30)
       "GET" "/" ∅ None 0 refused).1 3
  = ((forward_request
        (mkLoadBalancer (server_of_config <$> sample_config) 0
           LEAST_CONNECTIONS 30)
        "GET" "/" ∅ None 0 refused).1,
     Return (Some (0%nat,
                   end_request
                     (begin_request
                        (server_of_config
                           (mkServerConfig "A" "127.0.0.1" 8001 (Some 3)
                              None None)))))).
Proof.
  apply (least_connections_between_requests "least_connections" 30
           sample_config
           (mkLoadBalancer (server_of_config <$> sample_config) 0
              LEAST_CONNECTIONS 30)
           _ 3%nat _
           [(2%nat, server_of_config
                      (mkServerConfig "C" "127.0.0.1" 8003 None None (Some true)))]).
  - reflexivity.
  - apply rtc_once, step_forward.
  - reflexivity.
  - reflexivity.
Defined.

(** ** Enabling and disabling *)

Lemma toggle_in_found l server_name en :
  (toggle_in l server_name en).2 = true ↔ ∃ s, s ∈ l ∧ name s = server_name.
Proof.
  induction l as [|x l IH]; cbn [toggle_in].
  - split; [done|]. intros (s & Hs & _). by apply elem_of_nil in Hs.
  - destruct (String.eqb_spec (name x) server_name) as [Hx|Hx].
    + split; [|done]. intros _. exists x. split; [apply list_elem_of_here | done].
    + destruct (toggle_in l server_name en) as [r' found]. cbn [snd] in *.
      rewrite IH. split.
      * intros (s & Hs & Hn). exists s. split; [by apply list_elem_of_further | done].
      * intros (s & Hs & Hn). apply elem_of_cons in Hs as [->|Hs]; [done|].
        by exists s.
Qed.

Lemma toggle_in_not_found l server_name en :
  (toggle_in l server_name en).2 = false → (toggle_in l server_name en).1 = l.
Proof.
  induction l as [|x l IH]; cbn [toggle_in]; [done|].
  destruct (String.eqb (name x) server_name); [done|].
  destruct (toggle_in l server_name en) as [r' found]. cbn [fst snd] in *.
  intros H. by rewrite IH.
Qed.

Lemma toggle_in_first l server_name en : ∀ k s,
  l !! k = Some s → name s = server_name →
  (∀ j t, (j < k)%nat → l !! j = Some t → name t ≠ server_name) →
  toggle_in l server_name en = (<[k := set_enabled en s]> l, true).
Proof.
  induction l as [|x l IH]; intros k s Hk Hn Hfirst; [done|].
  cbn [toggle_in]. destruct k as [|k]; simpl in Hk.
  - injection Hk as ->. rewrite <- Hn, String.eqb_refl. done.
  - destruct (String.eqb_spec (name x) server_name) as [Hx|Hx].
    + by destruct (Hfirst 0%nat x ltac:(lia) eq_refl).
    + rewrite (IH k s Hk Hn); [done|].
      intros j t Hj Ht. apply (Hfirst (S j) t); [lia | done].
Qed.

Lemma set_servers_same lb : set_servers (servers lb) lb = lb.
Proof. by destruct lb. Qed.

(** X16. [toggle_server] reports [True] exactly when some server has the
    given name; when none has, the balancer is left as it was; otherwise
    only the first server of that name in registry order gets the new
    enabled flag, every other server and every other field staying as it
    was (a later server of the same name is not touched). *)
Theorem toggle_server_effect (lb : LoadBalancer) (server_name : string)
    (en : bool) :
  ((toggle_server lb server_name en).2 = true
   ↔ ∃ s, s ∈ servers lb ∧ name s = server_name) ∧
  ((toggle_server lb server_name en).2 = false →
   (toggle_server lb server_name en).1 = lb) ∧
  (∀ k s, servers lb !! k = Some s → name s = server_name →
     (∀ j t, (j < k)%nat → servers lb !! j = Some t → name t ≠ server_name) →
     toggle_server lb server_name en
     = (set_servers (<[k := set_enabled en s]> (servers lb)) lb, true)).
Proof.
  unfold toggle_server. split_and!.
  - rewrite <- (toggle_in_found (servers lb) server_name en).
    destruct (toggle_in (servers lb) server_name en) as [l found].
    reflexivity.
  - pose proof (toggle_in_not_found (servers lb) server_name en) as H.
    destruct (toggle_in (servers lb) server_name en) as [l found].
    cbn [fst snd] in *. intros Hf. rewrite (H Hf). apply set_servers_same.
  - intros k s Hk Hn Hfirst.
    by rewrite (toggle_in_first (servers lb) server_name en k s Hk Hn Hfirst).
Qed.

Lemma toggle_server_effect_witness :
  toggle_server (lb_of [srvB; srvA; set_healthy false srvA] RANDOM) "A" false
  = (lb_of [srvB; set_enabled false srvA; set_healthy false srvA] RANDOM, true).
Proof.
  destruct (toggle_server_effect
              (lb_of [srvB; srvA; set_healthy false srvA] RANDOM) "A" false)
    as (_ & _ & H).
  rewrite (H 1%nat srvA).
  - reflexivity.
  - reflexivity.
  - reflexivity.
  - intros j t Hj Ht. destruct j as [|j]; [|lia].
    injection Ht as <-. discriminate.
Defined.

Lemma toggle_in_flag l server_name en :
  NoDup (name <$> l) →
  ∀ s, s ∈ (toggle_in l server_name en).1 → name s = server_name →
       enabled s = en.
Proof.
  induction l as [|x l IH]; intros Hnd s Hs Hn; cbn [toggle_in] in Hs.
  - by apply elem_of_nil in Hs.
  - rewrite fmap_cons in Hnd. apply NoDup_cons in Hnd as [Hx Hnd].
    destruct (String.eqb_spec (name x) server_name) as [Hxn|Hxn].
    + cbn [fst] in Hs. apply elem_of_cons in Hs as [->|Hs]; [done|].
      exfalso. apply Hx. apply list_elem_of_fmap. exists s.
      split; [congruence | done].
    + specialize (IH Hnd s).
      destruct (toggle_in l server_name en) as [r' found]. cbn [fst] in *.
      apply elem_of_cons in Hs as [->|Hs]; [done | by apply IH].
Qed.

Lemma disabled_by_name_fmap kept (l1 l2 : list Server) :
  (λ s, (name s, enabled s)) <$> l1 = (λ s, (name s, enabled s)) <$> l2 →
  disabled_by_name kept l1 → disabled_by_name kept l2.
Proof.
  unfold disabled_by_name. revert l2.
  induction l1 as [|x l1 IH]; intros [|y l2] Heq H; try done.
  rewrite !fmap_cons in Heq. injection Heq as Hn He Heq.
  apply Forall_cons in H as [Hx H]. constructor.
  - rewrite <- Hn, <- He. exact Hx.
  - by apply IH.
Qed.

Lemma health_check_from_flags probe now l : ∀ i,
  (λ s, (name s, enabled s)) <$> (health_check_from i probe now l).1
  = (λ s, (name s, enabled s)) <$> l.
Proof.
  induction l as [|s l IH]; intros i; [done|].
  cbn [health_check_from]. specialize (IH (S i)).
  destruct (health_check_from (S i) probe now l) as [r' e']. cbn [fst] in IH.
  destruct (enabled s) eqn:Es.
  - destruct (_check_server_health s (probe i) (now i)) as [s'|e] eqn:Hc.
    + cbn [fst]. rewrite !fmap_cons, IH. f_equal.
      destruct (probe i) as [[status rt]|[]]; simpl in Hc; try done;
        by injection Hc as <-.
    + done.
  - cbn [fst]. by rewrite !fmap_cons, IH.
Qed.

Lemma toggle_in_keeps_disabled kept l server_name en :
  server_name ≠ kept ∨ en = false →
  disabled_by_name kept l →
  disabled_by_name kept (toggle_in l server_name en).1.
Proof.
  intros Hok. unfold disabled_by_name.
  induction l as [|x l IH]; intros H; [done|].
  apply Forall_cons in H as [Hx H]. cbn [toggle_in].
  destruct (String.eqb_spec (name x) server_name) as [Hxn|Hxn].
  - cbn [fst]. constructor; [|done]. simpl. intros Hk.
    destruct Hok as [Hne| ->]; [congruence | done].
  - specialize (IH H).
    destruct (toggle_in l server_name en) as [r' found]. cbn [fst] in *.
    by constructor.
Qed.

Lemma step_without_enabling_keeps kept lb lb' :
  step_without_enabling kept lb lb' →
  disabled_by_name kept (servers lb) → disabled_by_name kept (servers lb').
Proof.
  intros Hstep H.
  destruct Hstep as [lb method path headers data rnd send|lb probe now
                    |lb v|lb server_name en Hok].
  - destruct (forward_request_shape lb method path headers data rnd send)
      as (i & f & Hsrv & Hf).
    apply (disabled_by_name_fmap kept (servers lb)); [|done].
    rewrite Hsrv. symmetry. apply fmap_alter_same. intros x _.
    destruct Hf as [->|(g & [->|[t ->]] & ->)]; reflexivity.
  - unfold health_check_cycle.
    pose proof (health_check_from_flags probe now (servers lb) 0%nat) as Hfl.
    destruct (health_check_from 0 probe now (servers lb)) as [l e].
    cbn [fst servers set_servers] in *.
    by apply (disabled_by_name_fmap kept (servers lb)).
  - unfold update_algorithm.
    by destruct (LoadBalancingAlgorithm_of_value v).
  - unfold toggle_server.
    pose proof (toggle_in_keeps_disabled kept (servers lb) server_name en
                  Hok H) as Hk.
    by destruct (toggle_in (servers lb) server_name en) as [l found].
Qed.

(** X17. When the names in the registry are distinct and a server is
    disabled, then in every state reached afterwards by forwarded
    requests, health-check cycles, algorithm changes and [toggle_server]
    calls other than the enabling of that name, in any number and order
    and whatever the network answers, no selection returns that server,
    whatever the algorithm, the cursor and the random draw. *)
Theorem disabled_server_not_selected (lb lb' : LoadBalancer)
    (server_name : string) (rnd : nat) (x : server_ref) :
  NoDup (name <$> servers lb) →
  rtc (step_without_enabling server_name)
    (toggle_server lb server_name false).1 lb' →
  (select_server lb' rnd).2 = Return (Some x) →
  name x.2 ≠ server_name.
Proof.
  intros Hnd Hrun Hsel Hn.
  assert (Hstart : disabled_by_name server_name
                     (servers (toggle_server lb server_name false).1)).
  { unfold toggle_server, disabled_by_name.
    pose proof (toggle_in_flag (servers lb) server_name false Hnd) as Hflag.
    destruct (toggle_in (servers lb) server_name false) as [l found].
    cbn [fst servers set_servers] in *.
    apply Forall_forall. intros s Hs Hsn. by apply Hflag. }
  assert (Hend : disabled_by_name server_name (servers lb')).
  { clear Hsel. induction Hrun as [|a b c Hab _ IH]; [done|].
    apply IH. by eapply step_without_enabling_keeps. }
  destruct (select_server lb' rnd) as [lb1 r] eqn:S.
  cbn [snd] in Hsel. subst r. apply select_server_sound in S as [Hin _].
  destruct x as [i s]. unfold get_healthy_servers in Hin.
  apply healthy_from_elem in Hin as (_ & Hl & He & _).
  rewrite Nat.sub_0_r in Hl. apply list_elem_of_lookup_2 in Hl.
  unfold disabled_by_name in Hend. rewrite Forall_forall in Hend.
  rewrite (Hend s Hl Hn) in He. done.
Qed.

Lemma disabled_server_not_selected_witness :
  (select_server
     (health_check_cycle
        (forward_request
           (toggle_server (lb_of [srvA; srvB; srvC] ROUND_ROBIN) "A" false).1
           "GET" "/" ∅ None 0 refused).1
        (λ _, Return (200, 0.25%float)) (λ _, 5%float)).1 0).2
  = Return (Some (2%nat,
                  track_response_time 0.25%float
                    (set_last_health_check 5%float (set_healthy true srvC)))) ∧
  name (2%nat,
        track_response_time 0.25%float
          (set_last_health_check 5%float (set_healthy true srvC))).2 ≠ "A".
Proof.
  split; [reflexivity|].
  apply (disabled_server_not_selected
           (lb_of [srvA; srvB; srvC] ROUND_ROBIN)
           (health_check_cycle
              (forward_request
                 (toggle_server (lb_of [srvA; srvB; srvC] ROUND_ROBIN) "A"
                    false).1
                 "GET" "/" ∅ None 0%nat refused).1
              (λ _, Return (200, 0.25%float)) (λ _, 5%float)).1
           "A" 0%nat).
  - repeat (apply NoDup_cons; split;
            [intros H; repeat (apply elem_of_cons in H as [H|H]; [discriminate H|]);
             by apply elem_of_nil in H|]).
    apply NoDup_nil_2.
  - eapply rtc_l; [apply swe_forward|]. apply rtc_once, swe_health.
  - reflexivity.
Defined.

(** X18. A server that is enabled again is eligible at once exactly when
    its healthy flag is set, and that flag is the one it had when it was
    last probed: no probe is made on enabling, and disabled servers are
    skipped by the health-check cycle. *)
Theorem enabling_uses_last_known_health (lb : LoadBalancer)
    (server_name : string) (k : nat) (s : Server) :
  servers lb !! k = Some s → name s = server_name →
  (∀ j t, (j < k)%nat → servers lb !! j = Some t → name t ≠ server_name) →
  servers (toggle_server lb server_name true).1 !! k
  = Some (set_enabled true s) ∧
  ((∃ s', (k, s') ∈ get_healthy_servers (toggle_server lb server_name true).1)
   ↔ healthy s = true).
Proof.
  intros Hk Hn Hfirst. unfold toggle_server.
  rewrite (toggle_in_first (servers lb) server_name true k s Hk Hn Hfirst).
  cbn [fst servers set_servers].
  assert (Hl : <[k := set_enabled true s]> (servers lb) !! k
               = Some (set_enabled true s))
    by (apply list_lookup_insert_eq; by eapply lookup_lt_Some).
  split; [done|]. unfold get_healthy_servers. cbn [servers]. split.
  - intros (s' & Hin). apply healthy_from_elem in Hin as (_ & Hl' & _ & Hh).
    cbn [servers set_servers] in Hl'.
    rewrite Nat.sub_0_r, Hl in Hl'. by injection Hl' as <-.
  - intros Hh. exists (set_enabled true s). apply healthy_from_elem.
    cbn [servers set_servers].
    rewrite Nat.sub_0_r. split; [lia|]. by split_and!.
Qed.

Lemma enabling_uses_last_known_health_witness :
  servers
    (toggle_server
       (lb_of [srvA; set_healthy false (set_enabled false srvB)] RANDOM)
       "B" true).1 !! 1%nat
  = Some (set_enabled true (set_healthy false (set_enabled false srvB))).
Proof.
  destruct (enabling_uses_last_known_health
              (lb_of [srvA; set_healthy false (set_enabled false srvB)] RANDOM)
              "B" 1%nat (set_healthy false (set_enabled false srvB)))
    as [H _].
  - reflexivity.
  - reflexivity.
  - intros j t Hj Ht. destruct j as [|j]; [|lia].
    injection Ht as <-. discriminate.
  - exact H.
Defined.

(** X19. The enable/disable route answers 400 "Invalid action" for any
    action other than [enable] and [disable] and 404 "Server not found"
    when no server has the name, leaving the balancer as it was in both
    cases; otherwise it answers 200 with "Server <name> enabled" or
    "Server <name> disabled" and the balancer is the one [toggle_server]
    returns. *)
Theorem manage_server_replies (lb : LoadBalancer) (server_name : string) :
  (∀ action, action ≠ "enable" → action ≠ "disable" →
     manage_server lb server_name action
     = (lb, mkReply 400 "error" "Invalid action")) ∧
  (∀ action, action = "enable" ∨ action = "disable" →
     (∀ s, s ∈ servers lb → name s ≠ server_name) →
     manage_server lb server_name action
     = (lb, mkReply 404 "error" "Server not found")) ∧
  (∀ s, s ∈ servers lb → name s = server_name →
     manage_server lb server_name "enable"
     = ((toggle_server lb server_name true).1,
        mkReply 200 "message" ("Server " +:+ server_name +:+ " enabled")) ∧
     manage_server lb server_name "disable"
     = ((toggle_server lb server_name false).1,
        mkReply 200 "message" ("Server " +:+ server_name +:+ " disabled"))).
Proof.
  assert (Hmiss : ∀ en, (∀ s, s ∈ servers lb → name s ≠ server_name) →
                        toggle_server lb server_name en = (lb, false)).
  { intros en Hno. unfold toggle_server.
    pose proof (toggle_in_found (servers lb) server_name en) as Hf.
    pose proof (toggle_in_not_found (servers lb) server_name en) as Hn.
    destruct (toggle_in (servers lb) server_name en) as [l [|]];
      cbn [fst snd] in *.
    - destruct Hf as [Hf _]. destruct (Hf eq_refl) as (s & Hs & Hsn).
      by destruct (Hno s Hs).
    - by rewrite (Hn eq_refl), set_servers_same. }
  assert (Hhit : ∀ en s, s ∈ servers lb → name s = server_name →
                         (toggle_server lb server_name en).2 = true).
  { intros en s Hs Hsn. unfold toggle_server.
    pose proof (toggle_in_found (servers lb) server_name en) as Hf.
    destruct (toggle_in (servers lb) server_name en) as [l found].
    cbn [snd] in *. apply Hf. by exists s. }
  split_and!.
  - intros action He Hd. unfold manage_server.
    destruct (String.eqb_spec action "enable") as [|_]; [done|].
    by destruct (String.eqb_spec action "disable") as [|_].
  - intros action [-> | ->] Hno; unfold manage_server; simpl;
      by rewrite (Hmiss _ Hno).
  - intros s Hs Hsn. split; unfold manage_server; simpl.
    + pose proof (Hhit true s Hs Hsn) as H.
      by destruct (toggle_server lb server_name true) as [lb' [|]].
    + pose proof (Hhit false s Hs Hsn) as H.
      by destruct (toggle_server lb server_name false) as [lb' [|]].
Qed.

Lemma manage_server_replies_witness :
  manage_server (lb_of [srvA; srvB] RANDOM) "A" "Disable"
  = (lb_of [srvA; srvB] RANDOM, mkReply 400 "error" "Invalid action").
Proof.
  destruct (manage_server_replies (lb_of [srvA; srvB] RANDOM) "A") as (H & _).
  apply (H "Disable"); discriminate.
Defined.

(** ** Headers *)

(** X20. Header stripping removes exactly the headers whose name is,
    character for character, one of the eight lower-case names: every
    other header is passed on with its value, nothing is added or
    rewritten, and stripping twice changes nothing more. *)
Theorem strip_hop_by_hop_exact (headers : gmap string string) :
  (∀ k, strip_hop_by_hop headers !! k
        = if decide (k ∈ hop_by_hop_headers) then None else headers !! k) ∧
  strip_hop_by_hop headers ⊆ headers ∧
  strip_hop_by_hop (strip_hop_by_hop headers) = strip_hop_by_hop headers ∧
  (∀ method path data server tmo,
     req_headers (outbound_request server tmo method path headers data)
     = strip_hop_by_hop headers).
Proof.
  split_and!.
  - intros k. apply strip_hop_by_hop_lookup.
  - apply map_subseteq_spec. intros k v. rewrite strip_hop_by_hop_lookup.
    by case_decide.
  - apply map_eq. intros k. rewrite !strip_hop_by_hop_lookup.
    by case_decide.
  - done.
Qed.

(** ** Statistics *)

Lemma stats_servers_acc py_sum l : ∀ acc,
  fold_left (λ acc s, acc ++ [server_stats py_sum s]) l acc
  = acc ++ (server_stats py_sum <$> l).
Proof.
  induction l as [|s l IH]; intros acc; simpl.
  - by rewrite app_nil_r.
  - by rewrite IH, <- app_assoc.
Qed.

Lemma healthy_from_length py_sum l : ∀ k,
  length (healthy_from k l)
  = length (filter (λ e, st_enabled e && st_healthy e = true)
              (server_stats py_sum <$> l)).
Proof.
  induction l as [|s l IH]; intros k; [done|].
  cbn [healthy_from]. rewrite fmap_cons.
  destruct (enabled s && healthy s) eqn:E.
  - rewrite filter_cons_True by done. simpl. by rewrite (IH (S k)).
  - rewrite filter_cons_False by (simpl; by rewrite E). apply IH.
Qed.

(** X21. The statistics list one entry per registry server, in registry
    order, with that server's fields; [total_servers] is the number of
    entries; [healthy_servers] is the number of entries that are both
    enabled and healthy, hence between 0 and [total_servers]; and a server
    with no recorded latency reports an average of 0.0. *)
Theorem stats_consistent (py_sum : list float → float) (lb : LoadBalancer) :
  stats_servers (get_server_stats py_sum lb)
  = server_stats py_sum <$> servers lb ∧
  total_servers (get_server_stats py_sum lb)
  = Z.of_nat (length (stats_servers (get_server_stats py_sum lb))) ∧
  healthy_servers (get_server_stats py_sum lb)
  = Z.of_nat (length (filter (λ e, st_enabled e && st_healthy e = true)
                        (stats_servers (get_server_stats py_sum lb)))) ∧
  0 ≤ healthy_servers (get_server_stats py_sum lb)
    ≤ total_servers (get_server_stats py_sum lb) ∧
  (∀ s, response_times s = [] →
        st_avg_response_time (server_stats py_sum s) = 0%float).
Proof.
  assert (Hs : stats_servers (get_server_stats py_sum lb)
               = server_stats py_sum <$> servers lb)
    by (unfold get_server_stats; cbn [stats_servers];
        by rewrite stats_servers_acc).
  assert (Hh : healthy_servers (get_server_stats py_sum lb)
               = Z.of_nat (length (filter (λ e, st_enabled e && st_healthy e = true)
                                     (server_stats py_sum <$> servers lb))))
    by (unfold get_server_stats, get_healthy_servers; cbn [healthy_servers];
        by rewrite (healthy_from_length py_sum)).
  split_and!.
  - done.
  - rewrite Hs, length_fmap. done.
  - by rewrite Hs.
  - lia.
  - rewrite Hh. cbn [total_servers get_server_stats].
    pose proof (length_filter (λ e, st_enabled e && st_healthy e = true)
                  (server_stats py_sum <$> servers lb)) as Hle.
    rewrite length_fmap in Hle. lia.
  - intros s Hs0. unfold server_stats, avg_response_time. cbn. by rewrite Hs0.
Qed.

Lemma stats_consistent_witness :
  st_avg_response_time (server_stats (λ _, 1%float) srvA) = 0%float.
Proof.
  destruct (stats_consistent (λ _, 1%float) (lb_of [srvA] RANDOM))
    as (_ & _ & _ & _ & H).
  apply (H srvA). reflexivity.
Defined.
